(** * SVG chart renderer (graphs.js) and profile statistics (profile page)

    A shallow embedding of the four chart entry points
    [createXPProgressGraph], [createXPByProjectGraph],
    [createAuditRatioGraph] and [createPassFailGraph], of their geometry
    helpers, and of [calculateTotalXP] and [calculateSuccessRate].

    Numbers.  A JavaScript number is modelled as an exact value extended
    with the three IEEE 754 specials [Infinity], [-Infinity] and [NaN].
    Finite values are rationals ([number]); the results of [Math.cos],
    [Math.sin] and [Math.PI] are reals ([real]).  Arithmetic on finite
    values is exact: the rounding of binary64 and the sign of zero are not
    modelled.  The special values follow IEEE 754: [0/0] is [NaN], [x/0] is
    an infinity, [NaN] propagates and compares false with everything.

    Effects.  The renderers run in the monad [JS]: a state (the elements of
    the document, the style sheets appended to its head and the log of the
    divisions performed so far) and exceptions ([TypeError]).

    Not modelled: styling attributes, animations, event handlers (they run
    after the render call returns) and the characters produced by
    [formatNumber], [formatDate] and [toFixed], which are kept as symbolic
    text contents. *)

From Stdlib Require Import ZArith QArith Qround Qreduction.
From Stdlib Require Import Reals Qreals Lqa Lra Lia.
From Stdlib Require Import List String Ascii Bool.
From Stdlib Require Import Sorted Permutation.
Import ListNotations.

Set Implicit Arguments.
Set Warnings "-register-all".

(* ================================================================== *)
(** ** Extended numbers *)

Module Ext.

Section Extended.

Variable A : Type.
Variable zero : A.
Variables add mul div : A -> A -> A.
Variable opp : A -> A.
Variable cmp : A -> A -> comparison.

Inductive ext : Type :=
| Fin (a : A)
| PosInfinity
| NegInfinity
| NaN.

Definition sgn (a : A) : comparison := cmp a zero.

Definition neg (x : ext) : ext :=
  match x with
  | Fin a => Fin (opp a)
  | PosInfinity => NegInfinity
  | NegInfinity => PosInfinity
  | NaN => NaN
  end.

Definition plus (x y : ext) : ext :=
  match x, y with
  | NaN, _ | _, NaN => NaN
  | Fin a, Fin b => Fin (add a b)
  | PosInfinity, NegInfinity | NegInfinity, PosInfinity => NaN
  | PosInfinity, _ | _, PosInfinity => PosInfinity
  | NegInfinity, _ | _, NegInfinity => NegInfinity
  end.

Definition minus (x y : ext) : ext := plus x (neg y).

(** [Infinity * a] for a finite [a] of sign [s]. *)
Definition scaled_infinity (s : comparison) : ext :=
  match s with
  | Gt => PosInfinity
  | Lt => NegInfinity
  | Eq => NaN
  end.

Definition times (x y : ext) : ext :=
  match x, y with
  | NaN, _ | _, NaN => NaN
  | Fin a, Fin b => Fin (mul a b)
  | Fin a, PosInfinity | PosInfinity, Fin a => scaled_infinity (sgn a)
  | Fin a, NegInfinity | NegInfinity, Fin a => neg (scaled_infinity (sgn a))
  | PosInfinity, PosInfinity | NegInfinity, NegInfinity => PosInfinity
  | PosInfinity, NegInfinity | NegInfinity, PosInfinity => NegInfinity
  end.

Definition quot (x y : ext) : ext :=
  match x, y with
  | NaN, _ | _, NaN => NaN
  | Fin a, Fin b =>
      match sgn b with
      | Eq => scaled_infinity (sgn a)
      | _ => Fin (div a b)
      end
  | Fin _, PosInfinity | Fin _, NegInfinity => Fin zero
  | PosInfinity, Fin b =>
      match sgn b with Lt => NegInfinity | _ => PosInfinity end
  | NegInfinity, Fin b =>
      match sgn b with Lt => PosInfinity | _ => NegInfinity end
  | _, _ => NaN
  end.

(** The order of IEEE 754: [None] when an operand is [NaN]. *)
Definition compare (x y : ext) : option comparison :=
  match x, y with
  | NaN, _ | _, NaN => None
  | Fin a, Fin b => Some (cmp a b)
  | PosInfinity, PosInfinity | NegInfinity, NegInfinity => Some Eq
  | PosInfinity, _ | _, NegInfinity => Some Gt
  | NegInfinity, _ | _, PosInfinity => Some Lt
  end.

Definition eqb (x y : ext) : bool :=
  match compare x y with Some Eq => true | _ => false end.
Definition ltb (x y : ext) : bool :=
  match compare x y with Some Lt => true | _ => false end.
Definition leb (x y : ext) : bool :=
  match compare x y with Some Lt | Some Eq => true | _ => false end.
Definition gtb (x y : ext) : bool := ltb y x.
Definition geb (x y : ext) : bool := leb y x.

Definition is_finite (x : ext) : bool :=
  match x with Fin _ => true | _ => false end.

Definition is_nan (x : ext) : bool :=
  match x with NaN => true | _ => false end.

(** [Math.min] and [Math.max] of two arguments. *)
Definition min2 (x y : ext) : ext :=
  match compare x y with
  | None => NaN
  | Some Gt => y
  | Some _ => x
  end.

Definition max2 (x y : ext) : ext :=
  match compare x y with
  | None => NaN
  | Some Lt => y
  | Some _ => x
  end.

(** ToBoolean on a number: [0] and [NaN] are falsy. *)
Definition truthy (x : ext) : bool :=
  match x with
  | NaN => false
  | Fin a => match sgn a with Eq => false | _ => true end
  | _ => true
  end.

End Extended.

Arguments Fin {A} a.
Arguments PosInfinity {A}.
Arguments NegInfinity {A}.
Arguments NaN {A}.

End Ext.

Export Ext (Fin, PosInfinity, NegInfinity, NaN).

(** Numbers with rational finite values: everything the renderers compute
    without trigonometry.  Results are kept in lowest terms. *)
Module Number.

Definition number : Type := Ext.ext Q.

Definition qadd (a b : Q) : Q := Qred (a + b).
Definition qmul (a b : Q) : Q := Qred (a * b).
Definition qdiv (a b : Q) : Q := Qred (a / b).
Definition qopp (a : Q) : Q := Qred (- a).

Definition of_Q (q : Q) : number := Fin (Qred q).
Definition of_Z (z : Z) : number := Fin (inject_Z z).
Definition of_nat (n : nat) : number := of_Z (Z.of_nat n).

Definition add : number -> number -> number := Ext.plus qadd.
Definition sub : number -> number -> number := Ext.minus qadd qopp.
Definition mul : number -> number -> number := Ext.times 0%Q qmul qopp Qcompare.
Definition div : number -> number -> number := Ext.quot 0%Q qdiv Qcompare.
Definition eqb : number -> number -> bool := Ext.eqb Qcompare.
Definition ltb : number -> number -> bool := Ext.ltb Qcompare.
Definition leb : number -> number -> bool := Ext.leb Qcompare.
Definition gtb : number -> number -> bool := Ext.gtb Qcompare.
Definition geb : number -> number -> bool := Ext.geb Qcompare.
Definition min : number -> number -> number := Ext.min2 Qcompare.
Definition max : number -> number -> number := Ext.max2 Qcompare.
Definition truthy : number -> bool := Ext.truthy 0%Q Qcompare.

(** [Math.max(...xs)]: [-Infinity] on no argument. *)
Definition Math_max (xs : list number) : number :=
  fold_left max xs NegInfinity.

Definition Math_floor (x : number) : number :=
  match x with
  | Fin q => of_Z (Qfloor q)
  | _ => x
  end.

(** [Math.round]: the nearest integer, ties towards [+Infinity]. *)
Definition Math_round (x : number) : number :=
  match x with
  | Fin q => of_Z (Qfloor (q + (1#2)))
  | _ => x
  end.

(** [a || b] on numbers. *)
Definition or_else (a b : number) : number := if truthy a then a else b.

End Number.

Export Number (number).

Declare Scope number_scope.
Delimit Scope number_scope with num.
Bind Scope number_scope with number.
Infix "+" := Number.add : number_scope.
Infix "-" := Number.sub : number_scope.
Infix "*" := Number.mul : number_scope.
Infix "/" := Number.div : number_scope.
Infix "===" := Number.eqb (at level 70, no associativity) : number_scope.
Infix "<?" := Number.ltb : number_scope.
Infix "<=?" := Number.leb : number_scope.
Infix ">?" := Number.gtb (at level 70, no associativity) : number_scope.
Infix ">=?" := Number.geb (at level 70, no associativity) : number_scope.
Notation "$ z" := (Number.of_Z z%Z) (at level 1, format "$ z").

(** Numbers with real finite values: the coordinates that come out of
    [Math.cos] and [Math.sin]. *)
Module Real.

Definition real : Type := Ext.ext R.

Definition Rcompare (a b : R) : comparison :=
  match total_order_T a b with
  | inleft (left _) => Lt
  | inleft (right _) => Eq
  | inright _ => Gt
  end.

Definition of_number (x : number) : real :=
  match x with
  | Fin q => Fin (Q2R q)
  | PosInfinity => PosInfinity
  | NegInfinity => NegInfinity
  | NaN => NaN
  end.

Definition add : real -> real -> real := Ext.plus Rplus.
Definition mul : real -> real -> real := Ext.times 0%R Rmult Ropp Rcompare.
Definition div : real -> real -> real := Ext.quot 0%R Rdiv Rcompare.

Definition Math_PI : real := Fin PI.

(** [Math.cos] and [Math.sin] are [NaN] outside the finite values. *)
Definition Math_cos (x : real) : real :=
  match x with Fin r => Fin (cos r) | _ => NaN end.
Definition Math_sin (x : real) : real :=
  match x with Fin r => Fin (sin r) | _ => NaN end.

End Real.

Export Real (real).

Declare Scope real_scope.
Delimit Scope real_scope with re.
Bind Scope real_scope with real.
Infix "+" := Real.add : real_scope.
Infix "*" := Real.mul : real_scope.
Infix "/" := Real.div : real_scope.

Local Open Scope string_scope.
Local Open Scope list_scope.

(* ================================================================== *)
(** ** The document and the effects of a render call *)

Inductive exn : Type :=
| TypeError (message : string).

(** One entry per division evaluated, in evaluation order. *)
Inductive division : Type :=
| NumberDivision (numerator denominator : number)
| RealDivision (numerator denominator : real).

(** An element of the array that [join(' ')] turns into the [d] attribute. *)
Inductive token : Type :=
| Str (s : string)
| Num (v : number)
| Coord (v : real).

Inductive textContent : Type :=
| Literal (s : string)
| FormatNumber (v : number)
| FormatDate (time : number)
| ToFixed (digits : nat) (v : number) (suffix : string)
| LabelCount (label : string) (count : number).

(** SVG elements with the geometric attributes the renderers set. *)
Inductive node : Type :=
| Defs
| Line (x1 y1 x2 y2 : number)
| Text (x y : number) (content : textContent)
| Path (d : list token) (fill : string)
| Circle (cx cy r : number)
| Rect (x y width height : number) (fill : string)
| Group (children : list node).

Inductive child : Type :=
| Markup (html : string)
| Svg (width height : number) (children : list node).

Record element : Type := {
  clientWidth : Z;
  children : list child
}.

Record world : Type := {
  elements : list (string * element);
  head : list string;
  divisions : list division
}.

Definition JS (A : Type) : Type := world -> (A + exn) * world.

Definition ret {A : Type} (a : A) : JS A := fun w => (inl a, w).

Definition throw {A : Type} (e : exn) : JS A := fun w => (inr e, w).

Definition bind {A B : Type} (m : JS A) (k : A -> JS B) : JS B :=
  fun w =>
    match m w with
    | (inl a, w') => k a w'
    | (inr e, w') => (inr e, w')
    end.

Notation "x <- m ;; k" := (bind m (fun x => k))
  (at level 61, m at next level, right associativity).
Notation "m ;;; k" := (bind m (fun _ => k))
  (at level 61, right associativity).

Fixpoint mapM {A B : Type} (f : A -> JS B) (l : list A) : JS (list B) :=
  match l with
  | [] => ret []
  | a :: rest =>
      b <- f a ;;
      bs <- mapM f rest ;;
      ret (b :: bs)
  end.

(** The world after the divisions [ds] were evaluated. *)
Definition logged (ds : list division) (w : world) : world :=
  {| elements := elements w; head := head w; divisions := divisions w ++ ds |}.

(** [a / b], recorded in the log. *)
Definition divide (a b : number) : JS number :=
  fun w => (inl (a / b)%num, logged [NumberDivision a b] w).

Definition divide_real (a b : real) : JS real :=
  fun w => (inl (a / b)%re, logged [RealDivision a b] w).

Fixpoint lookup (id : string) (els : list (string * element)) : option element :=
  match els with
  | [] => None
  | (k, e) :: rest => if String.eqb k id then Some e else lookup id rest
  end.

Fixpoint update (id : string) (f : element -> element)
    (els : list (string * element)) : list (string * element) :=
  match els with
  | [] => []
  | (k, e) :: rest =>
      if String.eqb k id then (k, f e) :: rest else (k, e) :: update id f rest
  end.

(** [document.getElementById]: a reference to the element, or [null]. *)
Definition getElementById (id : string) : JS (option string) :=
  fun w =>
    (inl (match lookup id (elements w) with Some _ => Some id | None => None end), w).

Definition modify (id : string) (f : element -> element) : JS unit :=
  fun w =>
    (inl tt,
     {| elements := update id f (elements w); head := head w;
        divisions := divisions w |}).

(** [container.innerHTML = html]: a [TypeError] on [null]. *)
Definition set_innerHTML (container : option string) (html : string) : JS unit :=
  match container with
  | None => throw (TypeError "Cannot set properties of null (setting 'innerHTML')")
  | Some id =>
      modify id (fun e =>
        {| clientWidth := clientWidth e;
           children := if String.eqb html "" then [] else [Markup html] |})
  end.

Definition appendChild (container : option string) (c : child) : JS unit :=
  match container with
  | None => throw (TypeError "Cannot read properties of null (reading 'appendChild')")
  | Some id =>
      modify id (fun e =>
        {| clientWidth := clientWidth e; children := children e ++ [c] |})
  end.

Definition get_clientWidth (container : option string) : JS number :=
  match container with
  | None => throw (TypeError "Cannot read properties of null (reading 'clientWidth')")
  | Some id =>
      fun w =>
        match lookup id (elements w) with
        | Some e => (inl (Number.of_Z (clientWidth e)), w)
        | None => (inr (TypeError "Cannot read properties of null (reading 'clientWidth')"), w)
        end
  end.

(** [document.head.appendChild(style)]. *)
Definition appendStyle (css : string) : JS unit :=
  fun w =>
    (inl tt,
     {| elements := elements w; head := head w ++ [css];
        divisions := divisions w |}).

(** [a[i]] for a number [i]: [undefined] unless [i] is an index of [a]. *)
Definition at_index {A : Type} (a : list A) (i : number) : option A :=
  match i with
  | Fin q =>
      if (Qden (Qred q) =? 1)%positive && (0 <=? Qnum (Qred q))%Z
      then nth_error a (Z.to_nat (Qnum (Qred q)))
      else None
  | _ => None
  end.

(** Reading the property [prop] of [o]: a [TypeError] on [undefined]. *)
Definition property {A B : Type} (o : option A) (prop : string) (get : A -> B) : JS B :=
  match o with
  | Some a => ret (get a)
  | None =>
      throw (TypeError ("Cannot read properties of undefined (reading '" ++ prop ++ "')")%string)
  end.

(** The values [0, 1, ...] taken by [i] in [for (let i = 0; i < n; i++)]. *)
Definition loop_indices (n : number) : list number :=
  match n with
  | Fin q => map Number.of_nat (seq 0 (Z.to_nat (Qceiling q)))
  | _ => []
  end.

(** The pairs (element, index) visited by [forEach]. *)
Definition indexed {A : Type} (l : list A) : list (A * number) :=
  combine l (map Number.of_nat (seq 0 (List.length l))).

(* ================================================================== *)
(** ** Geometry helpers *)

Record point : Type := { x : real; y : real }.

Definition polarToCartesian (cx cy radius angle : number) : JS point :=
  angleRad <- divide_real (Real.of_number (angle - $90) * Real.Math_PI)%re (Fin 180%R) ;;
  ret {| x := (Real.of_number cx + Real.of_number radius * Real.Math_cos angleRad)%re;
         y := (Real.of_number cy + Real.of_number radius * Real.Math_sin angleRad)%re |}.

Definition largeArcFlag (startAngle endAngle : number) : string :=
  if (endAngle - startAngle <=? $180)%num then "0" else "1".

(** [createPieSlice]: the [d] attribute of the path it returns. *)
Definition createPieSlice (cx cy radius startAngle endAngle : number)
    : JS (list token) :=
  start <- polarToCartesian cx cy radius endAngle ;;
  end_ <- polarToCartesian cx cy radius startAngle ;;
  let largeArc := largeArcFlag startAngle endAngle in
  ret [ Str "M"; Num cx; Num cy;
        Str "L"; Coord (x start); Coord (y start);
        Str "A"; Num radius; Num radius; Num $0; Str largeArc; Num $0;
        Coord (x end_); Coord (y end_);
        Str "Z" ].

(** [createDonutSlice]: the [d] attribute of the path it returns. *)
Definition createDonutSlice (cx cy radius innerRadius startAngle endAngle : number)
    : JS (list token) :=
  start <- polarToCartesian cx cy radius endAngle ;;
  end_ <- polarToCartesian cx cy radius startAngle ;;
  innerStart <- polarToCartesian cx cy innerRadius endAngle ;;
  innerEnd <- polarToCartesian cx cy innerRadius startAngle ;;
  let largeArc := largeArcFlag startAngle endAngle in
  ret [ Str "M"; Coord (x start); Coord (y start);
        Str "A"; Num radius; Num radius; Num $0; Str largeArc; Num $0;
        Coord (x end_); Coord (y end_);
        Str "L"; Coord (x innerEnd); Coord (y innerEnd);
        Str "A"; Num innerRadius; Num innerRadius; Num $0; Str largeArc; Num $1;
        Coord (x innerStart); Coord (y innerStart);
        Str "Z" ].

(** [getBarColor]. *)
Definition getBarColor (value maxValue : number) : JS string :=
  ratio <- divide value maxValue ;;
  ret (if (ratio >? Number.of_Q (7#10))%num then "#48bb78"
       else if (ratio >? Number.of_Q (4#10))%num then "#667eea"
       else if (ratio >? Number.of_Q (2#10))%num then "#ed8936"
       else "#f56565").

(** [truncateText]. *)
Definition truncateText (text : string) (maxLength : nat) : string :=
  if (String.length text <=? maxLength)%nat then text
  else (substring 0 (maxLength - 3) text ++ "...")%string.

(* ================================================================== *)
(** ** Input records

    The values parsed from the JSON of the GraphQL answers are finite, so
    they are rationals; [null] and [undefined] are [None].  [createdAt] is
    the time value (milliseconds) of [new Date(t.createdAt)]. *)

Record objectInfo : Type := { name : option string }.

Record transaction : Type := {
  amount : Q;
  createdAt : Z;
  object : option objectInfo
}.

Record result : Type := { grade : option Q }.

Record auditData : Type := {
  totalUp : option Q;
  totalDown : option Q;
  auditRatio : option Q
}.

(** [t.object?.name || 'Unknown']. *)
Definition projectName (t : transaction) : string :=
  match object t with
  | Some {| name := Some s |} => if String.eqb s "" then "Unknown" else s
  | _ => "Unknown"
  end.

(** [v || 0] for a numeric field that may be missing. *)
Definition or_zero (v : option Q) : number :=
  match v with
  | Some q => Number.or_else (Number.of_Q q) $0
  | None => $0
  end.

(** [!a] for an array or object reference. *)
Definition missing {A : Type} (a : option A) : bool :=
  match a with Some _ => false | None => true end.

(** [a.length === 0] (false when [a] is missing: [||] never reaches it). *)
Definition is_empty {A : Type} (a : option (list A)) : bool :=
  match a with Some [] => true | _ => false end.

Definition array {A : Type} (a : option (list A)) : list A :=
  match a with Some l => l | None => [] end.

Definition double_quote : string := String (ascii_of_nat 34) EmptyString.

(** The empty-state markup of the four renderers. *)
Definition placeholder (message : string) : string :=
  ("<p style=" ++ double_quote
   ++ "text-align: center; color: var(--text-muted); padding: 2rem;"
   ++ double_quote ++ ">" ++ message ++ "</p>")%string.

Definition upto (n : nat) : list number := map Number.of_nat (seq 0 (S n)).

(* ================================================================== *)
(** ** Profile statistics *)

(** [calculateTotalXP]. *)
Definition calculateTotalXP (transactions : list transaction) : number :=
  fold_left (fun sum t => (sum + Number.of_Q (amount t))%num) transactions $0.

(** The counters of the [forEach] of [calculateSuccessRate]. *)
Definition successCounts (results : list result) : nat * nat :=
  fold_left
    (fun '(passCount, totalCount) r =>
       match grade r with
       | Some g =>
           if (Number.of_Q g >=? $1)%num
           then (S passCount, S totalCount)
           else (passCount, S totalCount)
       | None => (passCount, totalCount)
       end)
    results (0%nat, 0%nat).

(** [calculateSuccessRate]. *)
Definition calculateSuccessRate (results : option (list result)) : JS number :=
  if missing results || is_empty results then ret $0
  else
    let '(passCount, totalCount) := successCounts (array results) in
    if (Number.of_nat totalCount >? $0)%num then
      share <- divide (Number.of_nat passCount) (Number.of_nat totalCount) ;;
      ret (Number.Math_round (share * $100))
    else ret $0.

(* ================================================================== *)
(** ** createXPProgressGraph *)

Record dataPoint : Type := {
  date : number;          (* date.getTime() *)
  xp : number;
  project : string;
  point_amount : number   (* the field [amount] of the data point *)
}.

Fixpoint dataPoints_from (cumulativeXP : number) (transactions : list transaction)
    : list dataPoint :=
  match transactions with
  | [] => []
  | t :: rest =>
      let cumulativeXP := (cumulativeXP + Number.of_Q (amount t))%num in
      {| date := Number.of_Z (createdAt t);
         xp := cumulativeXP;
         project := projectName t;
         point_amount := Number.of_Q (amount t) |}
      :: dataPoints_from cumulativeXP rest
  end.

(** [transactions.map(...)] with [cumulativeXP] starting at [0]. *)
Definition dataPoints (transactions : list transaction) : list dataPoint :=
  dataPoints_from $0 transactions.

Section XPProgress.

Local Open Scope number_scope.

Variable container : option string.
Variable transactions : list transaction.

Let margin_top := $20.
Let margin_right := $30.
Let margin_bottom := $60.
Let margin_left := $80.
Let height := $350.

(** The body of [createXPProgressGraph] after its guard. *)
Definition drawXPProgress : JS unit :=
  let dataPoints := dataPoints transactions in
  let length := Number.of_nat (List.length dataPoints) in
  width <- get_clientWidth container ;;
  let graphWidth := width - margin_left - margin_right in
  let graphHeight := height - margin_top - margin_bottom in
  let maxXP := Number.Math_max (map xp dataPoints) in
  minDate <- property (at_index dataPoints $0) "date" date ;;
  maxDate <- property (at_index dataPoints (length - $1)) "date" date ;;
  let xScale := fun date : number =>
    r <- divide (date - minDate) (maxDate - minDate) ;;
    ret (margin_left + r * graphWidth) in
  let yScale := fun xp : number =>
    r <- divide xp maxXP ;;
    ret (height - margin_bottom - r * graphHeight) in
  gridGroup <- mapM (fun i =>
      r <- divide i $5 ;;
      let y := height - margin_bottom - r * graphHeight in
      ret (Line margin_left y (width - margin_right) y))
    (upto 5) ;;
  let axisGroup :=
    [ Line margin_left margin_top margin_left (height - margin_bottom);
      Line margin_left (height - margin_bottom)
           (width - margin_right) (height - margin_bottom) ] in
  yLabelGroup <- mapM (fun i =>
      r <- divide i $5 ;;
      let value := r * maxXP in
      r' <- divide i $5 ;;
      let y := height - margin_bottom - r' * graphHeight in
      ret (Text (margin_left - $10) y (FormatNumber value)))
    (upto 5) ;;
  let numXLabels := Number.min $5 length in
  xLabelGroup <- mapM (fun i =>
      r <- divide (i * (length - $1)) (numXLabels - $1) ;;
      let index := Number.Math_floor r in
      let point := at_index dataPoints index in
      pointDate <- property point "date" date ;;
      x <- xScale pointDate ;;
      ret (Text x (height - margin_bottom + $20) (FormatDate pointDate)))
    (loop_indices numXLabels) ;;
  areaSegments <- mapM (fun point =>
      px <- xScale (date point) ;;
      py <- yScale (xp point) ;;
      ret [Str "L"; Num px; Num py])
    dataPoints ;;
  lastDate <- property (at_index dataPoints (length - $1)) "date" date ;;
  lastX <- xScale lastDate ;;
  let areaD :=
    [Str "M"; Num margin_left; Num (height - margin_bottom)]
    ++ List.concat areaSegments
    ++ [Str "L"; Num lastX; Num (height - margin_bottom); Str "Z"] in
  firstDate <- property (at_index dataPoints $0) "date" date ;;
  firstX <- xScale firstDate ;;
  firstXP <- property (at_index dataPoints $0) "xp" xp ;;
  firstY <- yScale firstXP ;;
  lineSegments <- mapM (fun point =>
      px <- xScale (date point) ;;
      py <- yScale (xp point) ;;
      ret [Str "L"; Num px; Num py])
    (tl dataPoints) ;;
  let lineD := [Str "M"; Num firstX; Num firstY] ++ List.concat lineSegments in
  pointsGroup <- mapM (fun point =>
      cx <- xScale (date point) ;;
      cy <- yScale (xp point) ;;
      ret (Circle cx cy $4))
    dataPoints ;;
  appendStyle "@keyframes drawLine { to { stroke-dashoffset: 0; } }" ;;;
  set_innerHTML container "" ;;;
  appendChild container
    (Svg width height
       [ Defs;
         Group gridGroup;
         Group axisGroup;
         Group yLabelGroup;
         Group xLabelGroup;
         Path areaD "url(#xpGradient)";
         Path lineD "none";
         Group pointsGroup ]).

End XPProgress.

Definition createXPProgressGraph (containerId : string)
    (transactions : option (list transaction)) : JS unit :=
  container <- getElementById containerId ;;
  if missing container || missing transactions || is_empty transactions then
    set_innerHTML container (placeholder "No XP data available")
  else
    drawXPProgress container (array transactions).

(* ================================================================== *)
(** ** createXPByProjectGraph *)

(** A JavaScript object used as a map from names to numbers: its own
    properties in creation order.  The properties that every object
    inherits ([constructor], [toString], ...) are not modelled: a project
    is assumed not to bear one of their names. *)
Definition jsobject : Type := list (string * number).

(** [o[key]]: [undefined] when [o] has no such property. *)
Fixpoint get (o : jsobject) (key : string) : option number :=
  match o with
  | [] => None
  | (k, v) :: rest => if String.eqb k key then Some v else get rest key
  end.

(** [o[key] = v]: an existing property keeps its place, a new one is
    created last. *)
Fixpoint set (o : jsobject) (key : string) (v : number) : jsobject :=
  match o with
  | [] => [(key, v)]
  | (k, v') :: rest =>
      if String.eqb k key then (k, v) :: rest else (k, v') :: set rest key v
  end.

(** [o[key] || 0]. *)
Definition get_or_zero (o : jsobject) (key : string) : number :=
  match get o key with
  | Some v => Number.or_else v $0
  | None => $0
  end.

(** The [forEach] that fills [projectXP]. *)
Definition aggregate (transactions : list transaction) : jsobject :=
  fold_left
    (fun projectXP t =>
       let projectName := projectName t in
       set projectXP projectName
         (get_or_zero projectXP projectName + Number.of_Q (amount t))%num)
    transactions [].

Definition digit (c : ascii) : option N :=
  let n := N_of_ascii c in
  if ((48 <=? n) && (n <=? 57))%N then Some (n - 48)%N else None.

Fixpoint digits (s : string) (acc : N) : option N :=
  match s with
  | EmptyString => Some acc
  | String c rest =>
      match digit c with
      | Some d => digits rest (acc * 10 + d)%N
      | None => None
      end
  end.

(** A property key is an array index when it is the canonical decimal
    string of an integer below [2^32 - 1]. *)
Definition array_index (key : string) : option N :=
  match key with
  | EmptyString => None
  | String c rest =>
      if Ascii.eqb c "0" && negb (String.eqb rest "") then None
      else
        match digits key 0 with
        | Some n => if (n <? 4294967295)%N then Some n else None
        | None => None
        end
  end.

Definition is_array_index (key : string) : bool :=
  match array_index key with Some _ => true | None => false end.

Definition index_of (key : string) : N :=
  match array_index key with Some n => n | None => 0%N end.

Fixpoint insert_by_index (p : string * number) (l : list (string * number))
    : list (string * number) :=
  match l with
  | [] => [p]
  | q :: rest =>
      if (index_of (fst p) <=? index_of (fst q))%N then p :: q :: rest
      else q :: insert_by_index p rest
  end.

(** [Object.entries]: the array-index keys in ascending numeric order, then
    the other keys in creation order. *)
Definition Object_entries (o : jsobject) : list (string * number) :=
  fold_right insert_by_index [] (filter (fun p => is_array_index (fst p)) o)
  ++ filter (fun p => negb (is_array_index (fst p))) o.

(** [Array.prototype.sort(compareFn)].  The sort is stable and puts [a]
    after [b] when [compareFn(a, b) > 0]; with a consistent comparator this
    determines the result, which an insertion from the right computes. *)
Fixpoint insert {A : Type} (compareFn : A -> A -> number) (a : A) (l : list A)
    : list A :=
  match l with
  | [] => [a]
  | b :: rest =>
      if (compareFn a b >? $0)%num then b :: insert compareFn a rest
      else a :: b :: rest
  end.

Definition Array_sort {A : Type} (compareFn : A -> A -> number) (l : list A)
    : list A :=
  fold_right (insert compareFn) [] l.

(** [(a, b) => b[1] - a[1]]. *)
Definition byTotalDescending (a b : string * number) : number :=
  (snd b - snd a)%num.

(** [Object.entries(projectXP).sort(...).slice(0, 15)]. *)
Definition sortedProjects (transactions : list transaction)
    : list (string * number) :=
  firstn 15 (Array_sort byTotalDescending (Object_entries (aggregate transactions))).

Section XPByProject.

Local Open Scope number_scope.

Variable container : option string.
Variable sortedProjects : list (string * number).

Let margin_top := $20.
Let margin_right := $30.
Let margin_bottom := $120.
Let margin_left := $80.
Let height := $350.

(** The body of [createXPByProjectGraph] once [sortedProjects] is not
    empty.  A [Rect] carries the [y] and [height] that its timer sets. *)
Definition drawXPByProject : JS unit :=
  let length := Number.of_nat (List.length sortedProjects) in
  width <- get_clientWidth container ;;
  let graphWidth := width - margin_left - margin_right in
  let graphHeight := height - margin_top - margin_bottom in
  let maxXP := Number.Math_max (map snd sortedProjects) in
  slot <- divide graphWidth length ;;
  let barWidth := slot - $10 in
  bars <- mapM (fun '((name, xp), index) =>
      slot <- divide graphWidth length ;;
      let x := margin_left + index * slot + $5 in
      share <- divide xp maxXP ;;
      let barHeight := share * graphHeight in
      let y := height - margin_bottom - barHeight in
      fill <- getBarColor xp maxXP ;;
      half <- divide barWidth $2 ;;
      half' <- divide barWidth $2 ;;
      ret [ Rect x y barWidth barHeight fill;
            Text (x + half) (height - margin_bottom + $15)
                 (Literal (truncateText name 20)) ])
    (indexed sortedProjects) ;;
  let yAxis := Line margin_left margin_top margin_left (height - margin_bottom) in
  let xAxis := Line margin_left (height - margin_bottom)
                    (width - margin_right) (height - margin_bottom) in
  yLabels <- mapM (fun i =>
      r <- divide i $5 ;;
      let value := r * maxXP in
      r' <- divide i $5 ;;
      let y := height - margin_bottom - r' * graphHeight in
      ret (Text (margin_left - $10) y (FormatNumber value)))
    (upto 5) ;;
  set_innerHTML container "" ;;;
  appendChild container
    (Svg width height (List.concat bars ++ [yAxis; xAxis] ++ yLabels)).

End XPByProject.

Definition createXPByProjectGraph (containerId : string)
    (transactions : option (list transaction)) : JS unit :=
  container <- getElementById containerId ;;
  if missing container || missing transactions || is_empty transactions then
    set_innerHTML container (placeholder "No project data available")
  else
    let sortedProjects := sortedProjects (array transactions) in
    if (List.length sortedProjects =? 0)%nat then
      set_innerHTML container (placeholder "No project data available")
    else
      drawXPByProject container sortedProjects.

(* ================================================================== *)
(** ** createAuditRatioGraph and createPassFailGraph *)

Record slice : Type := {
  label : string;
  value : number;
  angle : number;
  color : string;
  startAngle : number
}.

(** The [forEach] that draws the slices, with its variable [currentAngle]. *)
Fixpoint drawSlices (createSlice : number -> number -> JS (list token))
    (slices : list slice) (currentAngle : number) : JS (list node) :=
  match slices with
  | [] => ret []
  | slice :: rest =>
      if (value slice >? $0)%num then
        d <- createSlice currentAngle (currentAngle + angle slice)%num ;;
        paths <- drawSlices createSlice rest (currentAngle + angle slice)%num ;;
        ret (Path d (color slice) :: paths)
      else drawSlices createSlice rest currentAngle
  end.

(** [s.split(sep)]. *)
Fixpoint split (sep : ascii) (s : string) : list string :=
  match s with
  | EmptyString => [EmptyString]
  | String c rest =>
      if Ascii.eqb c sep then EmptyString :: split sep rest
      else
        match split sep rest with
        | w :: ws => String c w :: ws
        | [] => [String c EmptyString]
        end
  end.

Section AuditRatio.

Local Open Scope number_scope.

Variable container : option string.
Variable auditRatio : number.
Variables totalUp totalDown total : number.

Let height := $300.

(** The array [slices] of [createAuditRatioGraph], with the angles
    computed just before it. *)
Definition auditSlices : JS (list slice) :=
  upShare <- divide totalUp total ;;
  let upAngle := upShare * $360 in
  downShare <- divide totalDown total ;;
  let downAngle := downShare * $360 in
  ret [ {| label := "Audits Done"; value := totalUp; angle := upAngle;
           color := "#48bb78"; startAngle := $0 |};
        {| label := "Audits Received"; value := totalDown; angle := downAngle;
           color := "#667eea"; startAngle := upAngle |} ].

(** The body of [createAuditRatioGraph] once [total] is not zero. *)
Definition drawAuditRatio : JS unit :=
  width <- get_clientWidth container ;;
  centerX <- divide width $2 ;;
  centerY <- divide height $2 ;;
  half <- divide (Number.min width height) $2 ;;
  let radius := half - $40 in
  let innerRadius := radius * Number.of_Q (6#10) in
  slices <- auditSlices ;;
  paths <- drawSlices (createDonutSlice centerX centerY radius innerRadius)
             slices (Number.of_Z (-90)) ;;
  let ratioText := Text centerX (centerY - $10) (ToFixed 2 auditRatio "") in
  let labelText := Text centerX (centerY + $15) (Literal "Ratio") in
  let legendY := height - $40 in
  legend <- mapM (fun '(slice, index) =>
      half <- divide width $2 ;;
      let legendX := half - $100 + index * $120 in
      ret [ Rect legendX legendY $15 $15 (color slice);
            Text (legendX + $20) (legendY + $12)
                 (Literal (nth 1 (split " " (label slice)) "")) ])
    (indexed slices) ;;
  set_innerHTML container "" ;;;
  appendChild container
    (Svg width height (paths ++ [ratioText; labelText] ++ List.concat legend)).

End AuditRatio.

(** The fields of [auditData] behind a reference that is not [null]. *)
Definition fields (data : option auditData) : auditData :=
  match data with
  | Some d => d
  | None => {| totalUp := None; totalDown := None; auditRatio := None |}
  end.

Definition createAuditRatioGraph (containerId : string)
    (data : option auditData) : JS unit :=
  container <- getElementById containerId ;;
  if missing container || missing data then
    set_innerHTML container (placeholder "No audit data available")
  else
    let totalUp := or_zero (totalUp (fields data)) in
    let totalDown := or_zero (totalDown (fields data)) in
    let total := (totalUp + totalDown)%num in
    if (total === $0)%num then
      set_innerHTML container (placeholder "No audit data available")
    else
      drawAuditRatio container (or_zero (auditRatio (fields data)))
        totalUp totalDown total.

(** The counters of the [forEach] of [createPassFailGraph]. *)
Definition passFailCounts (results : list result) : nat * nat :=
  fold_left
    (fun '(passCount, failCount) r =>
       match grade r with
       | Some g =>
           if (Number.of_Q g >=? $1)%num
           then (S passCount, failCount)
           else (passCount, S failCount)
       | None => (passCount, failCount)
       end)
    results (0%nat, 0%nat).

Section PassFail.

Local Open Scope number_scope.

Variable container : option string.
Variables passCount failCount total : number.

Let height := $300.

(** The array [slices] of [createPassFailGraph], with the angles
    computed just before it. *)
Definition passFailSlices : JS (list slice) :=
  passShare <- divide passCount total ;;
  let passAngle := passShare * $360 in
  failShare <- divide failCount total ;;
  let failAngle := failShare * $360 in
  ret [ {| label := "Pass"; value := passCount; angle := passAngle;
           color := "#48bb78"; startAngle := $0 |};
        {| label := "Fail"; value := failCount; angle := failAngle;
           color := "#f56565"; startAngle := passAngle |} ].

(** The body of [createPassFailGraph] once [total] is not zero. *)
Definition drawPassFail : JS unit :=
  width <- get_clientWidth container ;;
  centerX <- divide width $2 ;;
  centerY <- divide height $2 ;;
  half <- divide (Number.min width height) $2 ;;
  let radius := half - $40 in
  slices <- passFailSlices ;;
  paths <- drawSlices (createPieSlice centerX centerY radius)
             slices (Number.of_Z (-90)) ;;
  share <- divide passCount total ;;
  let percentage := share * $100 in
  let percentText := Text centerX (centerY - $10) (ToFixed 1 percentage "%") in
  let labelText := Text centerX (centerY + $15) (Literal "Success Rate") in
  let legendY := height - $40 in
  legend <- mapM (fun '(slice, index) =>
      half <- divide width $2 ;;
      let legendX := half - $80 + index * $100 in
      ret [ Rect legendX legendY $15 $15 (color slice);
            Text (legendX + $20) (legendY + $12)
                 (LabelCount (label slice) (value slice)) ])
    (indexed slices) ;;
  set_innerHTML container "" ;;;
  appendChild container
    (Svg width height (paths ++ [percentText; labelText] ++ List.concat legend)).

End PassFail.

Definition createPassFailGraph (containerId : string)
    (results : option (list result)) : JS unit :=
  container <- getElementById containerId ;;
  if missing container || missing results || is_empty results then
    set_innerHTML container (placeholder "No results data available")
  else
    let '(passCount, failCount) := passFailCounts (array results) in
    let total := (Number.of_nat passCount + Number.of_nat failCount)%num in
    if (total === $0)%num then
      set_innerHTML container (placeholder "No results data available")
    else
      drawPassFail container (Number.of_nat passCount) (Number.of_nat failCount) total.

(* ================================================================== *)
(** ** Vocabulary of the properties *)

(** The value of a numeric field, a missing one counting for nothing. *)
Definition numeric (v : option Q) : Q :=
  match v with Some q => q | None => 0 end.

(** The world in which the container shows the empty-state markup and
    nothing else changed: no style sheet appended, no division logged. *)
Definition showing (message containerId : string) (w : world) : world :=
  {| elements :=
       update containerId
         (fun e => {| clientWidth := clientWidth e;
                      children := [Markup (placeholder message)] |})
         (elements w);
     head := head w;
     divisions := divisions w |}.

(** A result is graded when its grade is neither [null] nor [undefined];
    it passes when its grade is at least 1 and fails when it is graded and
    does not pass. *)
Definition graded (r : result) : bool :=
  match grade r with Some _ => true | None => false end.

Definition passes (r : result) : bool :=
  match grade r with Some g => Qle_bool 1 g | None => false end.

Definition fails (r : result) : bool := graded r && negb (passes r).

Definition count {A : Type} (f : A -> bool) (l : list A) : nat :=
  List.length (filter f l).

(** The sum of the amounts, in the rationals. *)
Definition sum_amounts (transactions : list transaction) : Q :=
  fold_right (fun t s => amount t + s) 0 transactions.

(** The cumulative values of the data points, in order. *)
Definition cumulative (transactions : list transaction) : list number :=
  map xp (dataPoints transactions).

(** Each value is at most the next one. *)
Definition nondecreasing (l : list number) : Prop :=
  Sorted (fun a b => (a <=? b)%num = true) l.

(** The names in the order in which they were first met. *)
Definition first_insertions (names : list string) : list string :=
  fold_left
    (fun seen n => if existsb (String.eqb n) seen then seen else seen ++ [n])
    names [].

(** The sum of the totals of some groups, as the numbers of the code. *)
Definition sum_totals (groups : list (string * number)) : number :=
  fold_left (fun s p => (s + snd p)%num) groups $0.

(** Each total is at least the next one. *)
Definition descending (groups : list (string * number)) : Prop :=
  Sorted (fun a b => (snd a >=? snd b)%num = true) groups.

Definition with_total (v : number) (p : string * number) : bool :=
  (snd p === v)%num.

(** Whatever the total [v], the displayed groups with that total are the
    first groups with that total of the reference list, in its order. *)
Definition ties_follow (reference displayed : list (string * number)) : Prop :=
  forall v : number,
    exists rest,
      filter (with_total v) reference = filter (with_total v) displayed ++ rest.

(** The category-totals property with ties in order of first insertion and
    the sum bound on every list of records. *)
Definition category_totals_as_specified (transactions : list transaction) : Prop :=
  (List.length (sortedProjects transactions) <= 15)%nat
  /\ (sum_totals (sortedProjects transactions) <=? sum_totals (aggregate transactions))%num
     = true
  /\ descending (sortedProjects transactions)
  /\ ties_follow (aggregate transactions) (sortedProjects transactions).

Definition named (n : string) (a : Q) : transaction :=
  {| amount := a; createdAt := 0; object := Some {| name := Some n |} |}.

(** Two projects with the same total, the second one named by a number. *)
Definition tied_projects : list transaction :=
  [named "b" 5; named "1" 5].

(** Sixteen projects, the last one with a negative total. *)
Definition sixteen_projects : list transaction :=
  map (fun n => named n 1)
    ["a"; "b"; "c"; "d"; "e"; "f"; "g"; "h"; "i"; "j"; "k"; "l"; "m"; "n"; "o"]
  ++ [named "p" (-1)].

(** Every total is a finite number. *)
Definition all_finite (groups : list (string * number)) : Prop :=
  Forall (fun p => exists q, snd p = Fin q) groups.

(** The rational behind a finite number. *)
Definition rational (v : number) : Q :=
  match v with Fin q => q | _ => 0 end.

(** The sum of the totals of some groups, in the rationals. *)
Definition Qsum (groups : list (string * number)) : Q :=
  fold_right (fun p s => rational (snd p) + s) 0 groups.

(** The point of the circle that [polarToCartesian] computes for finite
    arguments, and the division it logs on the way. *)
Definition on_circle_x (cx radius angle : Q) : real :=
  Fin (Q2R cx + Q2R radius * cos ((Q2R angle - 90) * PI / 180))%R.

Definition on_circle_y (cy radius angle : Q) : real :=
  Fin (Q2R cy + Q2R radius * sin ((Q2R angle - 90) * PI / 180))%R.

Definition angle_division (angle : Q) : division :=
  RealDivision (Real.of_number (Fin angle - $90) * Real.Math_PI)%re (Fin 180%R).

(** Audits done and received in proportion 3 to 1. *)
Definition split_3_1 : auditData :=
  {| totalUp := Some 3; totalDown := Some 1; auditRatio := Some 3 |}.

(** Three passed results and a failed one. *)
Definition three_passes_one_fail : list result :=
  [ {| grade := Some 1 |}; {| grade := Some (3 # 2) |}; {| grade := Some 1 |};
    {| grade := Some 0 |} ].

(** The numbers that a node hands to the drawing primitives as
    coordinates and sizes. *)
Fixpoint node_numbers (n : node) : list number :=
  match n with
  | Defs => []
  | Line x1 y1 x2 y2 => [x1; y1; x2; y2]
  | Text x y _ => [x; y]
  | Path d _ => flat_map (fun t => match t with Num v => [v] | _ => [] end) d
  | Circle cx cy r => [cx; cy; r]
  | Rect x y width height _ => [x; y; width; height]
  | Group children => flat_map node_numbers children
  end.

(** All the numbers drawn in a container. *)
Definition drawn_numbers (containerId : string) (w : world) : list number :=
  match lookup containerId (elements w) with
  | Some e =>
      flat_map
        (fun c =>
           match c with
           | Svg width height nodes => width :: height :: flat_map node_numbers nodes
           | Markup _ => []
           end)
        (children e)
  | None => []
  end.

(** The literal texts drawn in a container, in document order. *)
Definition drawn_labels (containerId : string) (w : world) : list string :=
  match lookup containerId (elements w) with
  | Some e =>
      flat_map
        (fun c =>
           match c with
           | Svg _ _ nodes =>
               flat_map
                 (fun n => match n with Text _ _ (Literal s) => [s] | _ => [] end)
                 nodes
           | Markup _ => []
           end)
        (children e)
  | None => []
  end.

Definition at_time (time : Z) (a : Q) : transaction :=
  {| amount := a; createdAt := time; object := None |}.

(** One transaction; two transactions at the same instant; two
    transactions of amount zero; a loss followed by an equal gain; and an
    ordinary series. *)
Definition single_point : list transaction := [at_time 1000 100].
Definition same_instant : list transaction := [at_time 1000 100; at_time 1000 50].
Definition zero_amounts : list transaction := [at_time 1000 0; at_time 2000 0].
Definition loss_then_gain : list transaction := [at_time 1000 (-5); at_time 2000 5].
Definition ordinary_series : list transaction := [at_time 1000 10; at_time 2000 30].

(** What assigning [innerHTML] on [null] throws. *)
Definition innerHTML_of_null : exn :=
  TypeError "Cannot set properties of null (setting 'innerHTML')".

(** A document with one container, 400 pixels wide, and an empty log. *)
Definition sample_world : world :=
  {| elements := [("chart", {| clientWidth := 400; children := [] |})];
     head := [];
     divisions := [] |}.

(* ================================================================== *)
(** ** The rest of the page: project count, chart initialisation, tooltip *)

(** [t.object?.name] when it is truthy. *)
Definition truthy_name (t : transaction) : option string :=
  match object t with
  | Some {| name := Some s |} => if String.eqb s "" then None else Some s
  | _ => None
  end.

(** [Set.prototype.add] on a set of strings kept in insertion order. *)
Definition Set_add (s : list string) (v : string) : list string :=
  if existsb (String.eqb v) s then s else s ++ [v].

(** The set [uniqueProjects] that [countProjects] fills. *)
Definition uniqueProjects (transactions : list transaction) : list string :=
  fold_left
    (fun uniqueProjects t =>
       match truthy_name t with
       | Some n => Set_add uniqueProjects n
       | None => uniqueProjects
       end)
    transactions [].

(** [countProjects]: [uniqueProjects.size]. *)
Definition countProjects (transactions : list transaction) : nat :=
  List.length (uniqueProjects transactions).

(** The fields of the profile data that the charts read. *)
Record profileData : Type := {
  xpTransactions : option (list transaction);
  data_auditData : option auditData;
  results : option (list result)
}.

(** [try { m } catch (error) { handler(error) }]. *)
Definition try_catch {A : Type} (m : JS A) (handler : exn -> JS A) : JS A :=
  fun w =>
    match m w with
    | (inl a, w') => (inl a, w')
    | (inr e, w') => handler e w'
    end.

(** [console.error]: the console is not part of the state. *)
Definition console_error (message : string) (e : exn) : JS unit := ret tt.

(** [initializeGraphs], with [window.Graphs] the object that graphs.js
    exports. *)
Definition initializeGraphs (data : profileData) : JS unit :=
  try_catch
    (createXPProgressGraph "xpProgressGraph" (xpTransactions data) ;;;
     createXPByProjectGraph "xpByProjectGraph" (xpTransactions data) ;;;
     createAuditRatioGraph "auditRatioGraph" (data_auditData data) ;;;
     createPassFailGraph "passFailGraph" (results data))
    (console_error "Error initializing graphs:").

(** An element of class [tooltip]: its markup, whether it bears the class
    [show], and its position. *)
Record tooltip : Type := {
  innerHTML : string;
  show : bool;
  left : number;
  top : number
}.

(** What [getBoundingClientRect] returns for the hovered shape. *)
Record DOMRect : Type := {
  rect_left : number;
  rect_top : number;
  rect_width : number
}.

Section Tooltip.

(** The height that the layout gives to a tooltip with a given markup. *)
Variable offsetHeight : string -> number.

(** [showTooltip], on the elements of class [tooltip] of the document in
    document order: [querySelector] finds the first one. *)
Definition showTooltip (target : DOMRect) (content : string)
    (body : list tooltip) : list tooltip :=
  let body :=
    match body with
    | [] => [ {| innerHTML := ""; show := false; left := $0; top := $0 |} ]
    | _ => body
    end in
  match body with
  | [] => []
  | tooltip :: others =>
      {| innerHTML := content;
         show := true;
         left := (rect_left target + rect_width target / $2)%num;
         top := (rect_top target - offsetHeight content - $10)%num |}
      :: others
  end.

(** [hideTooltip]. *)
Definition hideTooltip (body : list tooltip) : list tooltip :=
  match body with
  | [] => []
  | tooltip :: others =>
      {| innerHTML := innerHTML tooltip; show := false;
         left := left tooltip; top := top tooltip |}
      :: others
  end.

(** The pointer events that the shapes listen to. *)
Inductive pointerEvent : Type :=
| mouseenter (target : DOMRect) (content : string)
| mouseleave.

Definition handle (body : list tooltip) (e : pointerEvent) : list tooltip :=
  match e with
  | mouseenter target content => showTooltip target content body
  | mouseleave => hideTooltip body
  end.

End Tooltip.

(** The closures [xScale] and [yScale] of [createXPProgressGraph], with
    their free variables as parameters. *)
Definition xScale (margin_left graphWidth minDate maxDate date : number)
    : JS number :=
  r <- divide (date - minDate)%num (maxDate - minDate)%num ;;
  ret (margin_left + r * graphWidth)%num.

Definition yScale (height margin_bottom graphHeight maxXP xp : number)
    : JS number :=
  r <- divide xp maxXP ;;
  ret (height - margin_bottom - r * graphHeight)%num.

(** A slice constructor that records the two angles it is given. *)
Definition recordAngles (startAngle endAngle : number) : JS (list token) :=
  ret [Num startAngle; Num endAngle].

(** The sum of the amounts of the transactions of one project. *)
Definition project_amounts (n : string) (transactions : list transaction) : Q :=
  sum_amounts (filter (fun t => String.eqb (projectName t) n) transactions).

(** The four containers of the profile page exist. *)
Definition has_containers (w : world) : Prop :=
  lookup "xpProgressGraph" (elements w) <> None
  /\ lookup "xpByProjectGraph" (elements w) <> None
  /\ lookup "auditRatioGraph" (elements w) <> None
  /\ lookup "passFailGraph" (elements w) <> None.

(** The profile page with its four containers, empty. *)
Definition profile_page : world :=
  {| elements :=
       [ ("xpProgressGraph", {| clientWidth := 600; children := [] |});
         ("xpByProjectGraph", {| clientWidth := 600; children := [] |});
         ("auditRatioGraph", {| clientWidth := 400; children := [] |});
         ("passFailGraph", {| clientWidth := 400; children := [] |}) ];
     head := [];
     divisions := [] |}.

(** The colour tiers of [getBarColor] with the thresholds multiplied out. *)
Definition tier (v m : Q) : string :=
  if negb (Qle_bool v ((7 # 10) * m)) then "#48bb78"
  else if negb (Qle_bool v ((4 # 10) * m)) then "#667eea"
  else if negb (Qle_bool v ((2 # 10) * m)) then "#ed8936"
  else "#f56565".

(** The total recorded for a name, nothing when the name is absent. *)
Definition total_of (o : jsobject) (n : string) : Q :=
  match get o n with Some v => rational v | None => 0 end.

(** A rational in lowest terms. *)
Definition canonical (q : Q) : Prop := Qred q = q.

(** The percentage of [passed] among [graded], rounded to the nearest
    integer (halves upwards); 0 when nothing is graded. *)
Definition percentage (passed graded : nat) : Z :=
  match graded with
  | O => 0
  | S _ =>
      Qfloor (inject_Z (Z.of_nat passed) / inject_Z (Z.of_nat graded) * 100 + (1 # 2))
  end.

(** The elements of class [tooltip] after a sequence of pointer events. *)
Definition after_events (offsetHeight : string -> number)
    (events : list pointerEvent) (body : list tooltip) : list tooltip :=
  fold_left (handle offsetHeight) events body.

(** The tooltip as [showTooltip] leaves it. *)
Definition shown (offsetHeight : string -> number) (target : DOMRect)
    (content : string) (visible : bool) : tooltip :=
  {| innerHTML := content;
     show := visible;
     left := (rect_left target + rect_width target / $2)%num;
     top := (rect_top target - offsetHeight content - $10)%num |}.

(** A computation that, when the container exists, returns normally and
    leaves of its passage only divisions in the log. *)
Definition quiet {A : Type} (containerId : string) (m : JS A) : Prop :=
  forall w,
    lookup containerId (elements w) <> None ->
    exists a ds, m w = (inl a, logged ds w).

(** The world after the content of the container was replaced by the one
    child [c], the style sheets [styles] were appended to the head and the
    divisions [ds] were evaluated. *)
Definition drawn (containerId : string) (c : child) (styles : list string)
    (ds : list division) (w : world) : world :=
  {| elements :=
       update containerId
         (fun e => {| clientWidth := clientWidth e; children := [c] |})
         (elements w);
     head := head w ++ styles;
     divisions := divisions w ++ ds |}.

(** A computation that, when the container exists, returns normally after
    replacing the content of the container by one [svg] element. *)
Definition renders (containerId : string) (styles : list string) (m : JS unit)
    : Prop :=
  forall w,
    lookup containerId (elements w) <> None ->
    exists width height nodes ds,
      m w = (inl tt, drawn containerId (Svg width height nodes) styles ds w).

(** The style sheet that the time series appends. *)
Definition drawLine_keyframes : string :=
  "@keyframes drawLine { to { stroke-dashoffset: 0; } }".

(** Between [w] and [w'] the content of the container was replaced by a
    single child, and no other element changed. *)
Definition painted (containerId : string) (w w' : world) : Prop :=
  exists c,
    elements w'
    = update containerId
        (fun e => {| clientWidth := clientWidth e; children := [c] |})
        (elements w).

(** The ids of the four chart containers of the profile page. *)
Definition chart_containers : list string :=
  ["xpProgressGraph"; "xpByProjectGraph"; "auditRatioGraph"; "passFailGraph"].

(** The container is in the document and holds exactly one child. *)
Definition holds_one_child (containerId : string) (w : world) : Prop :=
  exists e c, lookup containerId (elements w) = Some e /\ children e = [c].

(* ================================================================== *)
(** * Properties *)

(** ** Numbers *)

Lemma Rcompare_gt (a b : R) : (b < a)%R -> Real.Rcompare a b = Gt.
Proof.
  intros H. unfold Real.Rcompare.
  destruct (total_order_T a b) as [[Hlt | Heq] | Hgt]; try lra; reflexivity.
Qed.

Lemma Q2R_Qred (q : Q) : Q2R (Qred q) = Q2R q.
Proof. apply Qeq_eqR, Qred_correct. Qed.

Lemma sub_finite (a b : Q) : (Fin a - Fin b)%num = Fin (Qred (a + Qred (- b))).
Proof. reflexivity. Qed.

Lemma add_finite (a b : Q) : (Fin a + Fin b)%num = Fin (Qred (a + b)).
Proof. reflexivity. Qed.

Lemma mul_finite (a b : Q) : (Fin a * Fin b)%num = Fin (Qred (a * b)).
Proof. reflexivity. Qed.

Lemma div_finite (a b : Q) :
  ~ b == 0 -> (Fin a / Fin b)%num = Fin (Qred (a / b)).
Proof.
  intros Hb. unfold Number.div, Ext.quot, Ext.sgn.
  destruct (Qcompare_spec b 0) as [H | H | H]; [contradiction | reflexivity | reflexivity].
Qed.

Lemma leb_finite (a b : Q) : (Fin a <=? Fin b)%num = true <-> a <= b.
Proof.
  unfold Number.leb, Ext.leb, Ext.compare.
  destruct (Qcompare_spec a b) as [H | H | H]; split; intros H'; try reflexivity;
    try discriminate.
  - rewrite H. apply Qle_refl.
  - apply Qlt_le_weak, H.
  - exfalso. apply (Qlt_not_le _ _ H), H'.
Qed.

Lemma gtb_finite (a b : Q) : (Fin a >? Fin b)%num = true <-> b < a.
Proof.
  unfold Number.gtb, Ext.gtb, Ext.ltb, Ext.compare.
  destruct (Qcompare_spec b a) as [H | H | H]; split; intros H'; try reflexivity;
    try discriminate.
  - rewrite H in H'. exfalso. apply (Qlt_irrefl _ H').
  - exact H.
  - exfalso. apply (Qlt_irrefl b). apply Qlt_trans with a; assumption.
Qed.

Lemma geb_finite (a b : Q) : (Fin a >=? Fin b)%num = true <-> b <= a.
Proof. unfold Number.geb, Ext.geb. apply leb_finite. Qed.

Lemma eqb_finite (a b : Q) : (Fin a === Fin b)%num = true <-> a == b.
Proof.
  unfold Number.eqb, Ext.eqb, Ext.compare.
  destruct (Qcompare_spec a b) as [H | H | H]; split; intros H'; try reflexivity;
    try discriminate; try assumption.
  - rewrite H' in H. exfalso. apply (Qlt_irrefl _ H).
  - rewrite H' in H. exfalso. apply (Qlt_irrefl _ H).
Qed.

(** The special values behave as in IEEE 754. *)
Example division_by_zero :
  ($0 / $0)%num = NaN /\ ($1 / $0)%num = PosInfinity
  /\ ($(-1) / $0)%num = NegInfinity /\ ($1 / PosInfinity)%num = $0
  /\ (PosInfinity / $(-2))%num = NegInfinity
  /\ (PosInfinity / NegInfinity)%num = NaN.
Proof. repeat split. Qed.

Example arithmetic_on_infinities :
  (PosInfinity + NegInfinity)%num = NaN /\ ($7 + NegInfinity)%num = NegInfinity
  /\ ($0 * PosInfinity)%num = NaN /\ ($(-1) * NegInfinity)%num = PosInfinity
  /\ ($290 - NegInfinity * $230)%num = PosInfinity
  /\ ($80 + NaN * $290)%num = NaN.
Proof. repeat split. Qed.

Example comparisons_with_specials :
  (NaN <=? $180)%num = false /\ (NaN >? $180)%num = false
  /\ (NaN === NaN)%num = false /\ (NegInfinity <? $0)%num = true
  /\ ($0 <? PosInfinity)%num = true /\ (PosInfinity >? $5)%num = true
  /\ Number.Math_max [] = NegInfinity
  /\ Number.Math_max [$3; $7; $5] = $7
  /\ Number.Math_max [$3; NaN; $5] = NaN.
Proof. repeat split. Qed.

Example rounding_and_indices :
  Number.Math_round (Number.of_Q (5 # 2)) = $3
  /\ Number.Math_round (Number.of_Q (-5 # 2)) = $(-2)
  /\ Number.Math_floor (Number.of_Q (-5 # 2)) = $(-3)
  /\ Number.Math_floor NaN = NaN
  /\ at_index ["a"; "b"] $1 = Some "b"
  /\ at_index ["a"; "b"] $2 = None
  /\ at_index ["a"; "b"] (Number.of_Q (1 # 2)) = None
  /\ at_index ["a"; "b"] NaN = None.
Proof. repeat split. Qed.

Example array_indices :
  array_index "0" = Some 0%N /\ array_index "42" = Some 42%N
  /\ array_index "042" = None /\ array_index "4x" = None
  /\ array_index "" = None /\ array_index "4294967294" = Some 4294967294%N
  /\ array_index "4294967295" = None
  /\ map fst (Object_entries [("b", $1); ("10", $2); ("a", $3); ("9", $4)])
     = ["9"; "10"; "b"; "a"].
Proof. repeat split. Qed.

(** ** Geometry helpers *)

(** The angle in radians that [polarToCartesian] hands to [Math.cos]. *)
Lemma angleRad_finite (angle : Q) :
  (Real.of_number (Fin angle - $90) * Real.Math_PI / Fin 180%R)%re
  = Fin ((Q2R angle - 90) * PI / 180)%R.
Proof.
  unfold Number.of_Z. rewrite sub_finite.
  unfold Real.of_number, Real.Math_PI, Real.mul, Real.div.
  cbn [Ext.times Ext.quot]. unfold Ext.sgn.
  rewrite Rcompare_gt by lra.
  rewrite Q2R_Qred, Q2R_plus, Q2R_Qred, Q2R_opp.
  replace (Q2R (inject_Z 90)) with 90%R by (unfold Q2R; cbn; lra).
  reflexivity.
Qed.

Lemma polarToCartesian_finite (cx cy radius angle : Q) (w : world) :
  polarToCartesian (Fin cx) (Fin cy) (Fin radius) (Fin angle) w
  = (inl {| x := on_circle_x cx radius angle; y := on_circle_y cy radius angle |},
     logged [angle_division angle] w).
Proof.
  unfold polarToCartesian, bind, divide_real, ret.
  rewrite angleRad_finite. reflexivity.
Qed.

Lemma top_of_circle (c radius : Q) :
  on_circle_x c radius 0 = Fin (Q2R c)
  /\ on_circle_y c radius 0 = Fin (Q2R c - Q2R radius)%R.
Proof.
  unfold on_circle_x, on_circle_y.
  replace ((Q2R 0 - 90) * PI / 180)%R with (- (PI / 2))%R
    by (unfold Q2R; cbn; lra).
  rewrite cos_neg, sin_neg, cos_PI2, sin_PI2. split; f_equal; lra.
Qed.

Lemma left_of_circle (c radius : Q) :
  on_circle_x c radius (-90) = Fin (Q2R c - Q2R radius)%R
  /\ on_circle_y c radius (-90) = Fin (Q2R c).
Proof.
  unfold on_circle_x, on_circle_y.
  replace ((Q2R (-90) - 90) * PI / 180)%R with (- PI)%R
    by (unfold Q2R; cbn; lra).
  rewrite cos_neg, sin_neg, cos_PI, sin_PI. split; f_equal; lra.
Qed.


Lemma largeArcFlag_finite (startAngle endAngle : Q) :
  largeArcFlag (Fin startAngle) (Fin endAngle)
  = if Qle_bool (endAngle - startAngle) 180 then "0" else "1".
Proof.
  unfold largeArcFlag, Number.of_Z. rewrite sub_finite.
  destruct (Qle_bool (endAngle - startAngle) 180) eqn:Hle.
  - apply Qle_bool_iff in Hle.
    replace (Fin (Qred (endAngle + Qred (- startAngle))) <=? Fin (inject_Z 180))%num
      with true; [reflexivity |].
    symmetry. apply leb_finite. rewrite !Qred_correct. exact Hle.
  - replace (Fin (Qred (endAngle + Qred (- startAngle))) <=? Fin (inject_Z 180))%num
      with false; [reflexivity |].
    symmetry. apply not_true_is_false. intros H. apply leb_finite in H.
    rewrite !Qred_correct in H. apply Qle_bool_iff in H.
    unfold Qminus in Hle. unfold inject_Z in H. congruence.
Qed.

Lemma polarToCartesian_returns (cx cy radius angle : number) (w : world) :
  exists p w', polarToCartesian cx cy radius angle w = (inl p, w').
Proof. unfold polarToCartesian, bind, divide_real, ret. eauto. Qed.

Ltac step_polar w :=
  match goal with
  | |- context [polarToCartesian ?cx ?cy ?r ?a w] =>
      let p := fresh "p" in
      let w' := fresh "w" in
      let E := fresh "E" in
      destruct (polarToCartesian_returns cx cy r a w) as (p & w' & E);
      rewrite E
  end.


(** ** Guards of the entry points *)

Lemma getElementById_missing (containerId : string) (w : world) :
  lookup containerId (elements w) = None ->
  getElementById containerId w = (inl None, w).
Proof. intros H. unfold getElementById. rewrite H. reflexivity. Qed.

Lemma getElementById_present (containerId : string) (w : world) :
  lookup containerId (elements w) <> None ->
  getElementById containerId w = (inl (Some containerId), w).
Proof.
  intros H. unfold getElementById.
  destruct (lookup containerId (elements w)); [reflexivity | contradiction].
Qed.

Lemma set_placeholder (message containerId : string) (w : world) :
  set_innerHTML (Some containerId) (placeholder message) w
  = (inl tt, showing message containerId w).
Proof. reflexivity. Qed.

(** C9: when the document has no element with the given id, each of the
    four entry points throws the [TypeError] of assigning [innerHTML] on
    [null], whatever the data, and leaves the document untouched: nothing
    is returned silently and no placeholder is rendered. *)
Theorem missing_container_throws (containerId : string) (w : world) :
  lookup containerId (elements w) = None ->
  (forall transactions,
      createXPProgressGraph containerId transactions w = (inr innerHTML_of_null, w))
  /\ (forall transactions,
      createXPByProjectGraph containerId transactions w = (inr innerHTML_of_null, w))
  /\ (forall data,
      createAuditRatioGraph containerId data w = (inr innerHTML_of_null, w))
  /\ (forall results,
      createPassFailGraph containerId results w = (inr innerHTML_of_null, w)).
Proof.
  intros H. repeat split; intros input.
  - unfold createXPProgressGraph, bind.
    rewrite (getElementById_missing _ _ H). reflexivity.
  - unfold createXPByProjectGraph, bind.
    rewrite (getElementById_missing _ _ H). reflexivity.
  - unfold createAuditRatioGraph, bind.
    rewrite (getElementById_missing _ _ H). reflexivity.
  - unfold createPassFailGraph, bind.
    rewrite (getElementById_missing _ _ H). reflexivity.
Qed.

Lemma missing_container_throws_witness :
  lookup "absent" (elements sample_world) = None
  /\ createPassFailGraph "absent" (Some [{| grade := Some 1 |}]) sample_world
     = (inr innerHTML_of_null, sample_world).
Proof.
  split; [reflexivity |].
  apply (missing_container_throws "absent" sample_world). reflexivity.
Defined.

Lemma or_zero_value (v : option Q) :
  exists q, or_zero v = Fin q /\ q == numeric v.
Proof.
  destruct v as [q |]; cbn [or_zero numeric].
  - unfold Number.or_else, Number.of_Q, Number.truthy, Ext.truthy, Ext.sgn.
    destruct (Qcompare_spec (Qred q) 0) as [H | H | H].
    + exists 0. split; [reflexivity |].
      transitivity (Qred q); [symmetry; exact H | apply Qred_correct].
    + exists (Qred q). split; [reflexivity | apply Qred_correct].
    + exists (Qred q). split; [reflexivity | apply Qred_correct].
  - exists 0. split; reflexivity.
Qed.

Lemma passFailCounts_from (results : list result) (p f : nat) :
  fold_left
    (fun '(passCount, failCount) r =>
       match grade r with
       | Some g =>
           if (Number.of_Q g >=? $1)%num
           then (S passCount, failCount)
           else (passCount, S failCount)
       | None => (passCount, failCount)
       end)
    results (p, f)
  = (p + fst (passFailCounts results), f + snd (passFailCounts results))%nat.
Proof.
  unfold passFailCounts. revert p f.
  induction results as [| r rest IH]; intros p f; cbn [fold_left].
  - cbn. f_equal; lia.
  - destruct (grade r) as [g |].
    + destruct (Number.of_Q g >=? $1)%num.
      * rewrite (IH (S p) f), (IH 1%nat 0%nat). cbn [fst snd]. f_equal; lia.
      * rewrite (IH p (S f)), (IH 0%nat 1%nat). cbn [fst snd]. f_equal; lia.
    + apply IH.
Qed.

Lemma audit_zero_total (containerId : string) (w : world) (data : auditData) :
  lookup containerId (elements w) <> None ->
  numeric (totalUp data) + numeric (totalDown data) == 0 ->
  createAuditRatioGraph containerId (Some data) w
  = (inl tt, showing "No audit data available" containerId w).
Proof.
  intros Hc Hsum. unfold createAuditRatioGraph, bind.
  rewrite (getElementById_present _ _ Hc). cbn [missing orb fields].
  destruct (or_zero_value (totalUp data)) as (up & Eup & Hup).
  destruct (or_zero_value (totalDown data)) as (down & Edown & Hdown).
  rewrite Eup, Edown, add_finite.
  replace (Fin (Qred (up + down)) === $0)%num with true; [apply set_placeholder |].
  symmetry. apply eqb_finite. rewrite Qred_correct, Hup, Hdown. exact Hsum.
Qed.

Lemma passFail_zero_total (containerId : string) (w : world)
    (results : option (list result)) :
  lookup containerId (elements w) <> None ->
  (fst (passFailCounts (array results)) + snd (passFailCounts (array results)) = 0)%nat ->
  createPassFailGraph containerId results w
  = (inl tt, showing "No results data available" containerId w).
Proof.
  intros Hc Hsum. unfold createPassFailGraph, bind.
  rewrite (getElementById_present _ _ Hc). cbn [missing orb].
  destruct results as [[| r rest] |]; try apply set_placeholder.
  cbn [missing is_empty orb array] in *.
  destruct (passFailCounts (r :: rest)) as [p f]. cbn [fst snd] in Hsum.
  assert (p = 0%nat) by lia. assert (f = 0%nat) by lia. subst p f.
  apply set_placeholder.
Qed.

(** C5: provided the container exists, a binary split whose two values sum
    to zero makes both renderers return normally with the container showing
    the empty-state markup; the log of divisions is the one the call
    started with, so no division was evaluated. *)
Theorem zero_total_shows_placeholder (containerId : string) (w : world) :
  lookup containerId (elements w) <> None ->
  (forall data : auditData,
      numeric (totalUp data) + numeric (totalDown data) == 0 ->
      createAuditRatioGraph containerId (Some data) w
      = (inl tt, showing "No audit data available" containerId w))
  /\ (forall results : option (list result),
      (fst (passFailCounts (array results)) + snd (passFailCounts (array results)) = 0)%nat ->
      createPassFailGraph containerId results w
      = (inl tt, showing "No results data available" containerId w)).
Proof.
  intros Hc. split.
  - intros data. apply audit_zero_total, Hc.
  - intros results. apply passFail_zero_total, Hc.
Qed.

Lemma zero_total_shows_placeholder_witness :
  createAuditRatioGraph "chart"
    (Some {| totalUp := Some 0; totalDown := None; auditRatio := Some 1 |})
    sample_world
  = (inl tt, showing "No audit data available" "chart" sample_world)
  /\ createPassFailGraph "chart" (Some [{| grade := None |}]) sample_world
     = (inl tt, showing "No results data available" "chart" sample_world).
Proof.
  assert (Hc : lookup "chart" (elements sample_world) <> None) by discriminate.
  split.
  - apply (zero_total_shows_placeholder "chart" sample_world Hc). reflexivity.
  - apply (zero_total_shows_placeholder "chart" sample_world Hc). reflexivity.
Defined.

(** ** Slice angles *)

Lemma share_angle (v total : Q) :
  ~ total == 0 ->
  exists q, (Fin v / Fin total * $360)%num = Fin q /\ q == v / total * 360.
Proof.
  intros Ht. rewrite (div_finite _ Ht). unfold Number.of_Z. rewrite mul_finite.
  eexists. split; [reflexivity |]. rewrite !Qred_correct. reflexivity.
Qed.

Lemma auditSlices_angles (a b : Q) (w : world) :
  ~ a + b == 0 ->
  exists slices qa qb,
    fst (auditSlices (Fin a) (Fin b) (Fin a + Fin b)%num w) = inl slices
    /\ map value slices = [Fin a; Fin b]
    /\ map angle slices = [Fin qa; Fin qb]
    /\ qa == a / (a + b) * 360 /\ qb == b / (a + b) * 360.
Proof.
  intros Ht. rewrite add_finite.
  assert (Ht' : ~ Qred (a + b) == 0) by (rewrite Qred_correct; exact Ht).
  destruct (share_angle a Ht') as (qa & Ea & Ha).
  destruct (share_angle b Ht') as (qb & Eb & Hb).
  unfold auditSlices, bind, divide, ret. cbn [fst].
  rewrite Ea, Eb. do 3 eexists. repeat split.
  - rewrite Ha, Qred_correct. reflexivity.
  - rewrite Hb, Qred_correct. reflexivity.
Qed.

Lemma passFailSlices_angles (a b : Q) (w : world) :
  ~ a + b == 0 ->
  exists slices qa qb,
    fst (passFailSlices (Fin a) (Fin b) (Fin a + Fin b)%num w) = inl slices
    /\ map value slices = [Fin a; Fin b]
    /\ map angle slices = [Fin qa; Fin qb]
    /\ qa == a / (a + b) * 360 /\ qb == b / (a + b) * 360.
Proof.
  intros Ht. rewrite add_finite.
  assert (Ht' : ~ Qred (a + b) == 0) by (rewrite Qred_correct; exact Ht).
  destruct (share_angle a Ht') as (qa & Ea & Ha).
  destruct (share_angle b Ht') as (qb & Eb & Hb).
  unfold passFailSlices, bind, divide, ret. cbn [fst].
  rewrite Ea, Eb. do 3 eexists. repeat split.
  - rewrite Ha, Qred_correct. reflexivity.
  - rewrite Hb, Qred_correct. reflexivity.
Qed.



(** ** Pass and fail counts *)

Lemma grade_test (g : Q) : (Number.of_Q g >=? $1)%num = Qle_bool 1 g.
Proof.
  apply eq_true_iff_eq. unfold Number.of_Q, Number.of_Z.
  rewrite geb_finite, Qle_bool_iff, Qred_correct. reflexivity.
Qed.

Lemma successCounts_from (results : list result) (p t : nat) :
  fold_left
    (fun '(passCount, totalCount) r =>
       match grade r with
       | Some g =>
           if (Number.of_Q g >=? $1)%num
           then (S passCount, S totalCount)
           else (passCount, S totalCount)
       | None => (passCount, totalCount)
       end)
    results (p, t)
  = (p + fst (successCounts results), t + snd (successCounts results))%nat.
Proof.
  unfold successCounts. revert p t.
  induction results as [| r rest IH]; intros p t; cbn [fold_left].
  - cbn. f_equal; lia.
  - destruct (grade r) as [g |].
    + destruct (Number.of_Q g >=? $1)%num.
      * rewrite (IH (S p) (S t)), (IH 1%nat 1%nat). cbn [fst snd]. f_equal; lia.
      * rewrite (IH p (S t)), (IH 0%nat 1%nat). cbn [fst snd]. f_equal; lia.
    + apply IH.
Qed.

Lemma passFailCounts_count (results : list result) :
  passFailCounts results = (count passes results, count fails results).
Proof.
  induction results as [| r rest IH]; [reflexivity |].
  unfold passFailCounts. cbn [fold_left].
  unfold count, fails, graded, passes in *. cbn [filter].
  destruct (grade r) as [g |].
  - rewrite grade_test. destruct (Qle_bool 1 g); cbn [andb negb];
      rewrite passFailCounts_from, IH; cbn [fst snd List.length]; f_equal; lia.
  - cbn [andb]. exact IH.
Qed.

Lemma successCounts_count (results : list result) :
  successCounts results = (count passes results, count graded results).
Proof.
  induction results as [| r rest IH]; [reflexivity |].
  unfold successCounts. cbn [fold_left].
  unfold count, graded, passes in *. cbn [filter].
  destruct (grade r) as [g |].
  - rewrite grade_test. destruct (Qle_bool 1 g);
      rewrite successCounts_from, IH; cbn [fst snd List.length]; f_equal; lia.
  - exact IH.
Qed.

Lemma count_partition (results : list result) :
  (count passes results + count fails results = count graded results)%nat.
Proof.
  unfold count, fails, graded, passes.
  induction results as [| r rest IH]; [reflexivity |].
  cbn [filter]. destruct (grade r) as [g |]; [| exact IH].
  destruct (Qle_bool 1 g); cbn [andb negb List.length]; lia.
Qed.

Lemma count_none (results : list result) :
  Forall (fun r => grade r = None) results ->
  count passes results = 0%nat /\ count fails results = 0%nat
  /\ count graded results = 0%nat.
Proof.
  unfold count, fails, graded, passes.
  induction 1 as [| r rest Hr _ IH]; [repeat split |].
  cbn [filter]. rewrite Hr. exact IH.
Qed.



(** ** The cumulative series *)

Lemma last_cons (A : Type) (a d : A) (l : list A) : last (a :: l) d = last l a.
Proof.
  revert a d. induction l as [| b l IH]; intros a d; [reflexivity |].
  change (last (a :: b :: l) d) with (last (b :: l) d).
  rewrite (IH b d), (IH b a). reflexivity.
Qed.

Lemma cumulative_last_from (c : number) (transactions : list transaction) :
  last (map xp (dataPoints_from c transactions)) c
  = fold_left (fun sum t => (sum + Number.of_Q (amount t))%num) transactions c.
Proof.
  revert c. induction transactions as [| t rest IH]; intros c; [reflexivity |].
  cbn [dataPoints_from map xp fold_left]. rewrite last_cons. apply IH.
Qed.

Lemma total_from (c : Q) (transactions : list transaction) :
  exists q,
    fold_left (fun sum t => (sum + Number.of_Q (amount t))%num) transactions (Fin c)
    = Fin q
    /\ q == c + sum_amounts transactions.
Proof.
  revert c. induction transactions as [| t rest IH]; intros c; cbn [fold_left sum_amounts fold_right].
  - exists c. split; [reflexivity | ring].
  - unfold Number.of_Q at 2. rewrite add_finite.
    destruct (IH (Qred (c + Qred (amount t)))) as (q & E & Hq).
    exists q. split; [exact E |].
    rewrite Hq, !Qred_correct. unfold sum_amounts. ring.
Qed.

Lemma cumulative_sorted_from (c : Q) (transactions : list transaction) :
  Forall (fun t => 0 <= amount t) transactions ->
  nondecreasing (Fin c :: map xp (dataPoints_from (Fin c) transactions)).
Proof.
  unfold nondecreasing. intros H. revert c.
  induction H as [| t rest Ht _ IH]; intros c; cbn [dataPoints_from map xp].
  - repeat constructor.
  - unfold Number.of_Q. rewrite add_finite. constructor.
    + apply IH.
    + constructor. apply leb_finite. rewrite !Qred_correct.
      rewrite <- (Qplus_0_r c) at 1. apply Qplus_le_r, Ht.
Qed.



(** ** Category totals *)

Lemma get_or_zero_finite (o : jsobject) (key : string) :
  all_finite o -> exists q, get_or_zero o key = Fin q.
Proof.
  unfold get_or_zero. induction 1 as [| [k v] rest (q & Hq) _ IH]; cbn [get].
  - exists 0. reflexivity.
  - destruct (String.eqb k key); [| exact IH].
    cbn [snd] in Hq. subst v. unfold Number.or_else.
    destruct (Number.truthy (Fin q)); [exists q | exists 0]; reflexivity.
Qed.

Lemma set_finite (o : jsobject) (key : string) (q : Q) :
  all_finite o -> all_finite (set o key (Fin q)).
Proof.
  induction 1 as [| [k v] rest Hv Hrest IH]; cbn [set].
  - constructor; [exists q; reflexivity | constructor].
  - destruct (String.eqb k key).
    + constructor; [exists q; reflexivity | exact Hrest].
    + constructor; [exact Hv | exact IH].
Qed.

Lemma aggregate_finite (transactions : list transaction) :
  all_finite (aggregate transactions).
Proof.
  unfold aggregate.
  assert (H : all_finite []) by constructor.
  revert H. generalize (@nil (string * number)).
  induction transactions as [| t rest IH]; intros o Ho; cbn [fold_left]; [exact Ho |].
  apply IH. destruct (get_or_zero_finite (projectName t) Ho) as (q & ->).
  unfold Number.of_Q. rewrite add_finite. apply set_finite, Ho.
Qed.

Lemma insert_by_index_perm (p : string * number) (l : list (string * number)) :
  Permutation (p :: l) (insert_by_index p l).
Proof.
  induction l as [| q rest IH]; cbn [insert_by_index]; [reflexivity |].
  destruct (index_of (fst p) <=? index_of (fst q))%N; [reflexivity |].
  rewrite perm_swap. apply perm_skip, IH.
Qed.

Lemma filter_split_perm (A : Type) (f : A -> bool) (l : list A) :
  Permutation (filter f l ++ filter (fun a => negb (f a)) l) l.
Proof.
  induction l as [| a rest IH]; cbn [filter]; [reflexivity |].
  destruct (f a); cbn [negb app].
  - apply perm_skip, IH.
  - symmetry. apply Permutation_cons_app. symmetry. exact IH.
Qed.

Lemma Object_entries_perm (o : jsobject) : Permutation (Object_entries o) o.
Proof.
  unfold Object_entries.
  rewrite <- (filter_split_perm (fun p => is_array_index (fst p)) o) at 3.
  apply Permutation_app_tail.
  induction (filter (fun p => is_array_index (fst p)) o) as [| p rest IH];
    cbn [fold_right]; [reflexivity |].
  rewrite <- insert_by_index_perm. apply perm_skip, IH.
Qed.

Lemma filter_all (A : Type) (f : A -> bool) (l : list A) :
  Forall (fun a => f a = true) l -> filter f l = l.
Proof.
  induction 1 as [| a rest Ha _ IH]; cbn [filter]; [reflexivity |].
  rewrite Ha, IH. reflexivity.
Qed.

Lemma filter_none (A : Type) (f : A -> bool) (l : list A) :
  Forall (fun a => f a = false) l -> filter f l = [].
Proof.
  induction 1 as [| a rest Ha _ IH]; cbn [filter]; [reflexivity |].
  rewrite Ha, IH. reflexivity.
Qed.

Lemma Object_entries_creation_order (o : jsobject) :
  Forall (fun p => is_array_index (fst p) = false) o ->
  Object_entries o = o.
Proof.
  intros H. unfold Object_entries.
  rewrite (filter_none _ H). cbn [fold_right app].
  apply filter_all. eapply Forall_impl; [| exact H].
  intros p Hp. cbn beta. rewrite Hp. reflexivity.
Qed.

Lemma insert_perm (A : Type) (compareFn : A -> A -> number) (a : A) (l : list A) :
  Permutation (a :: l) (insert compareFn a l).
Proof.
  induction l as [| b rest IH]; cbn [insert]; [reflexivity |].
  destruct (compareFn a b >? $0)%num; [| reflexivity].
  rewrite perm_swap. apply perm_skip, IH.
Qed.

Lemma Array_sort_perm (A : Type) (compareFn : A -> A -> number) (l : list A) :
  Permutation (Array_sort compareFn l) l.
Proof.
  unfold Array_sort. induction l as [| a rest IH]; cbn [fold_right]; [reflexivity |].
  rewrite <- insert_perm. apply perm_skip, IH.
Qed.

(** The comparator is positive exactly when the first total is smaller. *)
Lemma byTotalDescending_positive (na nb : string) (qa qb : Q) :
  (byTotalDescending (na, Fin qa) (nb, Fin qb) >? $0)%num = true <-> qa < qb.
Proof.
  unfold byTotalDescending, Number.of_Z. cbn [snd]. rewrite sub_finite, gtb_finite.
  rewrite !Qred_correct. unfold inject_Z. split; intros H.
  - apply Qplus_lt_l with (z := - qa). rewrite Qplus_opp_r. exact H.
  - apply Qplus_lt_l with (z := - qa) in H. rewrite Qplus_opp_r in H. exact H.
Qed.

Ltac destruct_comparison H :=
  match goal with
  | |- context [if ?c then _ else _] => destruct c eqn:H
  end.

Lemma insert_head (a b : string * number) (l : list (string * number)) :
  (snd b >=? snd a)%num = true ->
  HdRel (fun x y => (snd x >=? snd y)%num = true) b l ->
  HdRel (fun x y => (snd x >=? snd y)%num = true) b (insert byTotalDescending a l).
Proof.
  intros Hba Hbl. destruct l as [| c rest]; cbn [insert].
  - constructor. exact Hba.
  - destruct (byTotalDescending a c >? $0)%num; constructor.
    + inversion Hbl; assumption.
    + exact Hba.
Qed.

Lemma insert_descending (a : string * number) (l : list (string * number)) :
  all_finite (a :: l) -> descending l -> descending (insert byTotalDescending a l).
Proof.
  unfold descending. intros Hfin Hl. inversion Hfin as [| ? ? (qa & Ha) Hfl]; subst.
  destruct a as [na va]. cbn [snd] in Ha. subst va.
  induction Hl as [| [nb vb] rest Hrest IH Hhd]; cbn [insert].
  - repeat constructor.
  - inversion Hfl as [| ? ? (qb & Hb) Hfrest]; subst. cbn [snd] in Hb. subst vb.
    destruct_comparison Hcmp.
    + apply byTotalDescending_positive in Hcmp. constructor.
      * apply IH; [constructor; [exists qa; reflexivity | exact Hfrest] | exact Hfrest].
      * apply insert_head; [| exact Hhd].
        cbn [snd]. apply geb_finite, Qlt_le_weak, Hcmp.
    + constructor; [constructor; assumption |].
      constructor. cbn [snd]. apply geb_finite. apply Qnot_lt_le. intros Hlt.
      pose proof (proj2 (byTotalDescending_positive na nb qa qb) Hlt) as E.
      exact (eq_true_false_abs _ E Hcmp).
Qed.

Lemma Array_sort_descending (l : list (string * number)) :
  all_finite l -> descending (Array_sort byTotalDescending l).
Proof.
  unfold Array_sort. induction 1 as [| a rest Ha Hrest IH]; cbn [fold_right].
  - constructor.
  - apply insert_descending; [| exact IH].
    constructor; [exact Ha |].
    unfold all_finite. rewrite (Array_sort_perm byTotalDescending rest). exact Hrest.
Qed.

Lemma firstn_sorted (A : Type) (R : A -> A -> Prop) (n : nat) (l : list A) :
  Sorted R l -> Sorted R (firstn n l).
Proof.
  intros H. revert n. induction H as [| a rest Hrest IH Hhd]; intros n.
  - rewrite firstn_nil. constructor.
  - destruct n as [| n]; cbn [firstn]; [constructor |].
    constructor; [apply IH |].
    destruct Hhd as [| b rest' Hab]; destruct n; cbn [firstn]; constructor; exact Hab.
Qed.

(** Two groups that the comparator orders strictly do not have the same
    total. *)
Lemma with_total_exclusive (v : number) (na nb : string) (qa qb : Q) :
  qa < qb ->
  with_total v (na, Fin qa) = true -> with_total v (nb, Fin qb) = true -> False.
Proof.
  unfold with_total. cbn [snd]. intros Hlt Ha Hb. destruct v as [q | | |];
    try discriminate.
  apply eqb_finite in Ha. apply eqb_finite in Hb.
  rewrite Ha, Hb in Hlt. apply (Qlt_irrefl _ Hlt).
Qed.

Lemma filter_insert (v : number) (a : string * number) (l : list (string * number)) :
  all_finite (a :: l) ->
  filter (with_total v) (insert byTotalDescending a l) = filter (with_total v) (a :: l).
Proof.
  intros Hfin. inversion Hfin as [| ? ? (qa & Ha) Hfl]; subst.
  destruct a as [na va]. cbn [snd] in Ha. subst va.
  induction Hfl as [| [nb vb] rest (qb & Hb) Hfrest IH]; cbn [insert]; [reflexivity |].
  cbn [snd] in Hb. subst vb.
  destruct_comparison Hcmp; [| reflexivity].
  apply byTotalDescending_positive in Hcmp.
  cbn [filter]. rewrite IH by (constructor; [exists qa; reflexivity | exact Hfrest]).
  cbn [filter].
  pose proof (with_total_exclusive v na nb Hcmp) as Hex.
  repeat match goal with
         | |- context [with_total v ?p] => destruct (with_total v p) eqn:?
         end; try reflexivity.
  exfalso. apply Hex; solve [assumption | reflexivity].
Qed.

(** The sort is stable: the groups with a given total stay in the order
    of the array that was sorted. *)
Lemma Array_sort_stable (v : number) (l : list (string * number)) :
  all_finite l ->
  filter (with_total v) (Array_sort byTotalDescending l) = filter (with_total v) l.
Proof.
  unfold Array_sort. induction 1 as [| a rest Ha Hrest IH]; cbn [fold_right];
    [reflexivity |].
  rewrite filter_insert.
  - cbn [filter]. fold (Array_sort byTotalDescending rest). unfold Array_sort.
    rewrite IH. reflexivity.
  - constructor; [exact Ha |].
    unfold all_finite. fold (Array_sort byTotalDescending rest).
    rewrite (Array_sort_perm byTotalDescending rest). exact Hrest.
Qed.

Lemma firstn_ties (n : nat) (l : list (string * number)) : ties_follow l (firstn n l).
Proof.
  intros v. exists (filter (with_total v) (skipn n l)).
  rewrite <- filter_app, firstn_skipn. reflexivity.
Qed.

Lemma sum_totals_from (c : Q) (groups : list (string * number)) :
  all_finite groups ->
  exists q,
    fold_left (fun s p => (s + snd p)%num) groups (Fin c) = Fin q
    /\ q == c + Qsum groups.
Proof.
  intros H. revert c.
  induction H as [| [n v] rest (qv & Hv) _ IH]; intros c; cbn [fold_left Qsum fold_right].
  - exists c. split; [reflexivity | ring].
  - cbn [snd] in Hv |- *. subst v. rewrite add_finite.
    destruct (IH (Qred (c + qv))) as (q & E & Hq).
    exists q. split; [exact E |].
    rewrite Hq, Qred_correct. cbn [rational]. unfold Qsum. ring.
Qed.

Lemma Qsum_perm (l l' : list (string * number)) :
  Permutation l l' -> Qsum l == Qsum l'.
Proof.
  induction 1 as [| p l l' _ IH | p p' l | l l' l'' _ IH1 _ IH2];
    cbn [Qsum fold_right] in *.
  - reflexivity.
  - rewrite IH. reflexivity.
  - ring.
  - rewrite IH1. exact IH2.
Qed.

Lemma Qsum_nonnegative (l : list (string * number)) :
  Forall (fun p => 0 <= rational (snd p)) l -> 0 <= Qsum l.
Proof.
  induction 1 as [| p rest Hp _ IH]; cbn [Qsum fold_right].
  - apply Qle_refl.
  - fold (Qsum rest). Lqa.lra.
Qed.

Lemma Qsum_firstn (n : nat) (l : list (string * number)) :
  Forall (fun p => 0 <= rational (snd p)) l -> Qsum (firstn n l) <= Qsum l.
Proof.
  intros H. revert n. induction H as [| p rest Hp Hrest IH]; intros n.
  - rewrite firstn_nil. apply Qle_refl.
  - destruct n as [| n]; cbn [firstn Qsum fold_right].
    + fold (Qsum rest). pose proof (Qsum_nonnegative Hrest). Lqa.lra.
    + fold (Qsum rest) (Qsum (firstn n rest)). pose proof (IH n). Lqa.lra.
Qed.

Lemma firstn_Forall (A : Type) (P : A -> Prop) (n : nat) (l : list A) :
  Forall P l -> Forall P (firstn n l).
Proof.
  intros H. rewrite <- (firstn_skipn n l) in H. apply Forall_app in H. apply H.
Qed.

Lemma nonnegative_rational (l : list (string * number)) :
  all_finite l ->
  Forall (fun p => ($0 <=? snd p)%num = true) l ->
  Forall (fun p => 0 <= rational (snd p)) l.
Proof.
  induction 1 as [| [n v] rest (q & Hq) _ IH]; intros H; [constructor |].
  inversion H as [| ? ? Hp Hrest]; subst. constructor; [| apply IH, Hrest].
  cbn [snd] in *. subst v. apply leb_finite in Hp. exact Hp.
Qed.

Lemma set_keys (o : jsobject) (key : string) (v : number) :
  map fst (set o key v)
  = if existsb (String.eqb key) (map fst o) then map fst o else map fst o ++ [key].
Proof.
  induction o as [| [k v'] rest IH]; cbn [set map fst existsb app]; [reflexivity |].
  rewrite (String.eqb_sym key k). destruct (String.eqb k key) eqn:E; cbn [orb map fst].
  - reflexivity.
  - rewrite IH. destruct (existsb (String.eqb key) (map fst rest)); reflexivity.
Qed.

Lemma aggregate_keys_from (o : jsobject) (transactions : list transaction) :
  map fst
    (fold_left
       (fun projectXP t =>
          set projectXP (projectName t)
            (get_or_zero projectXP (projectName t) + Number.of_Q (amount t))%num)
       transactions o)
  = fold_left
      (fun seen n => if existsb (String.eqb n) seen then seen else seen ++ [n])
      (map projectName transactions) (map fst o).
Proof.
  revert o. induction transactions as [| t rest IH]; intros o; cbn [fold_left map];
    [reflexivity |].
  rewrite IH, set_keys. reflexivity.
Qed.

Lemma aggregate_keys (transactions : list transaction) :
  map fst (aggregate transactions) = first_insertions (map projectName transactions).
Proof. apply aggregate_keys_from. Qed.

Lemma set_not_empty (o : jsobject) (key : string) (v : number) : set o key v <> [].
Proof. destruct o as [| [k v'] rest]; cbn [set]; [| destruct (String.eqb k key)]; discriminate. Qed.

Lemma aggregate_not_empty_from (o : jsobject) (transactions : list transaction) :
  o <> [] ->
  fold_left
    (fun projectXP t =>
       set projectXP (projectName t)
         (get_or_zero projectXP (projectName t) + Number.of_Q (amount t))%num)
    transactions o
  <> [].
Proof.
  revert o. induction transactions as [| t rest IH]; intros o Ho; cbn [fold_left].
  - exact Ho.
  - apply IH. apply set_not_empty.
Qed.

Lemma aggregate_not_empty (transactions : list transaction) :
  transactions <> [] -> aggregate transactions <> [].
Proof.
  unfold aggregate. intros H.
  destruct transactions as [| t rest]; [contradiction |]. cbn [fold_left].
  apply aggregate_not_empty_from, set_not_empty.
Qed.

Lemma sortedProjects_not_empty (transactions : list transaction) :
  transactions <> [] -> (0 < List.length (sortedProjects transactions))%nat.
Proof.
  intros H. apply aggregate_not_empty in H. unfold sortedProjects.
  rewrite length_firstn.
  rewrite (Permutation_length (Array_sort_perm byTotalDescending _)).
  rewrite (Permutation_length (Object_entries_perm _)).
  destruct (aggregate transactions); [contradiction | cbn [List.length]; lia].
Qed.

Lemma entries_finite (transactions : list transaction) :
  all_finite (Object_entries (aggregate transactions)).
Proof.
  unfold all_finite. rewrite Object_entries_perm. apply aggregate_finite.
Qed.

Lemma sortedProjects_sum (transactions : list transaction) :
  Forall (fun p => ($0 <=? snd p)%num = true) (aggregate transactions) ->
  (sum_totals (sortedProjects transactions) <=? sum_totals (aggregate transactions))%num
  = true.
Proof.
  intros Hpos.
  pose proof (aggregate_finite transactions) as Hfin.
  pose proof (nonnegative_rational Hfin Hpos) as Hq.
  assert (Hperm : Permutation
            (Array_sort byTotalDescending (Object_entries (aggregate transactions)))
            (aggregate transactions)).
  { rewrite Array_sort_perm. apply Object_entries_perm. }
  assert (Hsf : all_finite (sortedProjects transactions)).
  { unfold sortedProjects. apply firstn_Forall.
    unfold all_finite. rewrite Hperm. exact Hfin. }
  unfold sum_totals, Number.of_Z.
  destruct (sum_totals_from (inject_Z 0) Hsf) as (q1 & -> & H1).
  destruct (sum_totals_from (inject_Z 0) Hfin) as (q2 & -> & H2).
  apply leb_finite. rewrite H1, H2. apply Qplus_le_r.
  rewrite <- (Qsum_perm Hperm). unfold sortedProjects. apply Qsum_firstn.
  rewrite Hperm. exact Hq.
Qed.




(** ** Where the first slice starts *)

Lemma logged_logged (a b : list division) (w : world) :
  logged b (logged a w) = logged (a ++ b) w.
Proof. unfold logged. cbn. f_equal. symmetry. apply app_assoc. Qed.

Lemma createPieSlice_finite (cx cy radius startAngle endAngle : Q) (w : world) :
  createPieSlice (Fin cx) (Fin cy) (Fin radius) (Fin startAngle) (Fin endAngle) w
  = (inl [ Str "M"; Num (Fin cx); Num (Fin cy);
           Str "L"; Coord (on_circle_x cx radius endAngle);
           Coord (on_circle_y cy radius endAngle);
           Str "A"; Num (Fin radius); Num (Fin radius); Num $0;
           Str (largeArcFlag (Fin startAngle) (Fin endAngle)); Num $0;
           Coord (on_circle_x cx radius startAngle);
           Coord (on_circle_y cy radius startAngle);
           Str "Z" ],
     logged [angle_division endAngle; angle_division startAngle] w).
Proof.
  unfold createPieSlice, bind.
  rewrite !polarToCartesian_finite, logged_logged. reflexivity.
Qed.

Lemma createDonutSlice_finite (cx cy radius innerRadius startAngle endAngle : Q)
    (w : world) :
  createDonutSlice (Fin cx) (Fin cy) (Fin radius) (Fin innerRadius)
    (Fin startAngle) (Fin endAngle) w
  = (inl [ Str "M"; Coord (on_circle_x cx radius endAngle);
           Coord (on_circle_y cy radius endAngle);
           Str "A"; Num (Fin radius); Num (Fin radius); Num $0;
           Str (largeArcFlag (Fin startAngle) (Fin endAngle)); Num $0;
           Coord (on_circle_x cx radius startAngle);
           Coord (on_circle_y cy radius startAngle);
           Str "L"; Coord (on_circle_x cx innerRadius startAngle);
           Coord (on_circle_y cy innerRadius startAngle);
           Str "A"; Num (Fin innerRadius); Num (Fin innerRadius); Num $0;
           Str (largeArcFlag (Fin startAngle) (Fin endAngle)); Num $1;
           Coord (on_circle_x cx innerRadius endAngle);
           Coord (on_circle_y cy innerRadius endAngle);
           Str "Z" ],
     logged [angle_division endAngle; angle_division startAngle;
             angle_division endAngle; angle_division startAngle] w).
Proof.
  unfold createDonutSlice, bind.
  rewrite !polarToCartesian_finite, !logged_logged. reflexivity.
Qed.

Lemma bottom_of_circle (c radius : Q) :
  on_circle_x c radius 180 = Fin (Q2R c)
  /\ on_circle_y c radius 180 = Fin (Q2R c + Q2R radius)%R.
Proof.
  unfold on_circle_x, on_circle_y.
  replace ((Q2R 180 - 90) * PI / 180)%R with (PI / 2)%R
    by (unfold Q2R; cbn; lra).
  rewrite cos_PI2, sin_PI2. split; f_equal; lra.
Qed.

Lemma Q2R_integer (z : Z) : Q2R (inject_Z z) = IZR z.
Proof. unfold Q2R, inject_Z. cbn. lra. Qed.

Ltac circle_points :=
  cbn [nth_error];
  rewrite ?(proj1 (left_of_circle _ _)), ?(proj2 (left_of_circle _ _)),
          ?(proj1 (bottom_of_circle _ _)), ?(proj2 (bottom_of_circle _ _));
  repeat split; do 3 f_equal;
  change 200 with (inject_Z 200); change 150 with (inject_Z 150);
  change 110 with (inject_Z 110); rewrite ?Q2R_integer; lra.

(** C2, evaluated: in a container 400 pixels wide the circle has centre
    (200, 150) and radius 110, so its top-most point is (200, 40).  For the
    split (3, 1) the first slice of the donut and of the pie is drawn from
    the angle -90 to the angle 180: its arc ends at (90, 150), the left-most
    point of the circle, and begins at (200, 260), the bottom-most one.  The
    first slice therefore starts at 9 o'clock and neither of its two
    boundaries is at 12 o'clock. *)
Theorem first_slice_starts_at_nine_oclock :
  (exists d others w',
      createAuditRatioGraph "chart" (Some split_3_1) sample_world = (inl tt, w')
      /\ lookup "chart" (elements w')
         = Some {| clientWidth := 400;
                   children := [Svg $400 $300 (Path d "#48bb78" :: others)] |}
      /\ nth_error d 9 = Some (Coord (Fin 90%R))
      /\ nth_error d 10 = Some (Coord (Fin 150%R))
      /\ nth_error d 1 = Some (Coord (Fin 200%R))
      /\ nth_error d 2 = Some (Coord (Fin 260%R)))
  /\ (exists d others w',
      createPassFailGraph "chart" (Some three_passes_one_fail) sample_world
      = (inl tt, w')
      /\ lookup "chart" (elements w')
         = Some {| clientWidth := 400;
                   children := [Svg $400 $300 (Path d "#48bb78" :: others)] |}
      /\ nth_error d 12 = Some (Coord (Fin 90%R))
      /\ nth_error d 13 = Some (Coord (Fin 150%R))
      /\ nth_error d 4 = Some (Coord (Fin 200%R))
      /\ nth_error d 5 = Some (Coord (Fin 260%R))).
Proof.
  split.
  - unfold createAuditRatioGraph. unfold bind at 1.
    cbn [getElementById sample_world elements lookup].
    cbn -[cos sin PI Rplus Rmult Rdiv Q2R createDonutSlice drawSlices].
    unfold bind at 1. cbn [drawSlices value angle color].
    change (Number.of_Q 3 >? $0)%num with true.
    change (Number.of_Q 1 >? $0)%num with true.
    cbn iota. unfold bind at 1.
    change ($(-90) + Fin 270)%num with (Fin 180 : number).
    change ($(-90)) with (Fin (-90) : number).
    rewrite createDonutSlice_finite. unfold bind at 1. unfold bind at 1.
    change (Fin 180 + Fin 90)%num with (Fin 270 : number).
    rewrite createDonutSlice_finite.
    cbn -[cos sin PI Rplus Rmult Rdiv Q2R on_circle_x on_circle_y angle_division
          largeArcFlag].
    do 3 eexists. split; [reflexivity |]. split; [reflexivity |].
    circle_points.
  - unfold createPassFailGraph. unfold bind at 1.
    cbn [getElementById sample_world elements lookup].
    cbn -[cos sin PI Rplus Rmult Rdiv Q2R createPieSlice drawSlices].
    unfold bind at 1. cbn [drawSlices value angle color].
    change (Number.of_nat 3 >? $0)%num with true.
    change (Number.of_nat 1 >? $0)%num with true.
    cbn iota. unfold bind at 1.
    change ($(-90) + Fin 270)%num with (Fin 180 : number).
    change ($(-90)) with (Fin (-90) : number).
    rewrite createPieSlice_finite. unfold bind at 1. unfold bind at 1.
    change (Fin 180 + Fin 90)%num with (Fin 270 : number).
    rewrite createPieSlice_finite.
    cbn -[cos sin PI Rplus Rmult Rdiv Q2R on_circle_x on_circle_y angle_division
          largeArcFlag].
    do 3 eexists. split; [reflexivity |]. split; [reflexivity |].
    circle_points.
Qed.

(** ** The time series on degenerate data *)

(** On an ordinary series every drawn number is finite. *)
Lemma ordinary_series_is_finite :
  fst (createXPProgressGraph "chart" (Some ordinary_series) sample_world) = inl tt
  /\ forallb (@Ext.is_finite Q)
       (drawn_numbers "chart"
          (snd (createXPProgressGraph "chart" (Some ordinary_series) sample_world)))
     = true.
Proof. split; vm_compute; reflexivity. Qed.

(** C1, evaluated.  The divisions of the time series are not guarded.  With
    a single transaction the index of the date label is [0 * 0 / 0], the
    data point read at that index is [undefined] and the call throws a
    [TypeError] before anything is drawn.  With two transactions at the same
    instant [xScale] divides by zero and [NaN] is drawn as a coordinate;
    with a maximum cumulative value of zero [yScale] does the same, and
    after a loss it draws an infinite one.  No placeholder is shown in any
    of these cases. *)
Theorem time_series_divides_by_zero :
  (fst (createXPProgressGraph "chart" (Some single_point) sample_world)
   = inr (TypeError "Cannot read properties of undefined (reading 'date')")
   /\ elements (snd (createXPProgressGraph "chart" (Some single_point) sample_world))
      = elements sample_world
   /\ last (divisions (snd (createXPProgressGraph "chart" (Some single_point)
                              sample_world)))
           (NumberDivision $1 $1)
      = NumberDivision $0 $0)
  /\ (fst (createXPProgressGraph "chart" (Some same_instant) sample_world) = inl tt
      /\ existsb (@Ext.is_nan Q)
           (drawn_numbers "chart"
              (snd (createXPProgressGraph "chart" (Some same_instant) sample_world)))
         = true)
  /\ (fst (createXPProgressGraph "chart" (Some zero_amounts) sample_world) = inl tt
      /\ existsb (@Ext.is_nan Q)
           (drawn_numbers "chart"
              (snd (createXPProgressGraph "chart" (Some zero_amounts) sample_world)))
         = true)
  /\ (fst (createXPProgressGraph "chart" (Some loss_then_gain) sample_world) = inl tt
      /\ existsb (fun v => negb (Ext.is_finite v))
           (drawn_numbers "chart"
              (snd (createXPProgressGraph "chart" (Some loss_then_gain) sample_world)))
         = true).
Proof. repeat split; vm_compute; reflexivity. Qed.

(** Whatever its amount, its date and the width of the container, a single
    transaction makes the call throw. *)
Lemma single_transaction_throws (containerId : string) (w : world)
    (t : transaction) :
  lookup containerId (elements w) <> None ->
  fst (createXPProgressGraph containerId (Some [t]) w)
  = inr (TypeError "Cannot read properties of undefined (reading 'date')").
Proof.
  intros Hc. unfold createXPProgressGraph. unfold bind at 1.
  rewrite (getElementById_present _ _ Hc). cbn [missing is_empty orb array].
  unfold drawXPProgress. unfold bind at 1. unfold get_clientWidth.
  destruct (lookup containerId (elements w)) as [e |]; [| contradiction].
  cbn. reflexivity.
Qed.

(* ================================================================== *)
(** * Further properties *)

(** ** Text truncation *)

Lemma substring_prefix (m : nat) (s : string) :
  exists rest,
    s = (substring 0 m s ++ rest)%string
    /\ String.length (substring 0 m s) = Nat.min m (String.length s).
Proof.
  revert m. induction s as [| c s IH]; intros m.
  - exists EmptyString. destruct m; split; reflexivity.
  - destruct m as [| m]; cbn [substring].
    + exists (String c s). split; reflexivity.
    + destruct (IH m) as (rest & E & L). exists rest. split.
      * cbn [append]. rewrite <- E. reflexivity.
      * cbn [String.length]. rewrite L. reflexivity.
Qed.

Lemma length_append (a b : string) :
  String.length (a ++ b)%string = (String.length a + String.length b)%nat.
Proof. induction a as [| c a IH]; cbn; [reflexivity | rewrite IH; reflexivity]. Qed.

(** X1: [truncateText] leaves a text of at most [maxLength] characters
    unchanged; a longer one becomes its first [maxLength - 3] characters
    followed by three dots, which makes exactly [maxLength] characters when
    [maxLength] is at least 3 and the three dots alone otherwise.  The
    result is never longer than the larger of [maxLength] and 3. *)
Theorem truncateText_fits (text : string) (maxLength : nat) :
  ((String.length text <= maxLength)%nat -> truncateText text maxLength = text)
  /\ ((maxLength < String.length text)%nat ->
      exists kept rest,
        text = (kept ++ rest)%string
        /\ String.length kept = (maxLength - 3)%nat
        /\ truncateText text maxLength = (kept ++ "...")%string
        /\ String.length (truncateText text maxLength) = Nat.max maxLength 3)
  /\ (String.length (truncateText text maxLength) <= Nat.max maxLength 3)%nat.
Proof.
  unfold truncateText.
  destruct (Nat.leb_spec (String.length text) maxLength) as [Hle | Hlt].
  - split; [reflexivity |]. split; [lia | lia].
  - destruct (substring_prefix (maxLength - 3) text) as (rest & E & L).
    assert (Lk : String.length (substring 0 (maxLength - 3) text) = (maxLength - 3)%nat)
      by lia.
    assert (Lt : String.length (substring 0 (maxLength - 3) text ++ "...")%string
                 = Nat.max maxLength 3).
    { rewrite length_append, Lk. cbn [String.length]. lia. }
    split; [lia |]. split.
    + intros _. exists (substring 0 (maxLength - 3) text), rest.
      repeat split; assumption.
    + rewrite Lt. lia.
Qed.

Lemma truncateText_fits_witness :
  truncateText "piscine-go" 20 = "piscine-go"
  /\ exists kept rest,
       "ascii-art-web-stylize-export" = (kept ++ rest)%string
       /\ String.length kept = (20 - 3)%nat
       /\ truncateText "ascii-art-web-stylize-export" 20 = (kept ++ "...")%string
       /\ String.length (truncateText "ascii-art-web-stylize-export" 20)
          = Nat.max 20 3.
Proof.
  split.
  - apply (truncateText_fits "piscine-go" 20). cbn. lia.
  - apply (truncateText_fits "ascii-art-web-stylize-export" 20). cbn. lia.
Defined.

(** ** Bar colours *)

Lemma ratio_above (a v m : Q) :
  0 < m ->
  (Fin (Qred (v / m)) >? Number.of_Q a)%num = negb (Qle_bool v (a * m)).
Proof.
  intros Hm. apply eq_true_iff_eq. unfold Number.of_Q.
  rewrite gtb_finite, negb_true_iff, !Qred_correct.
  assert (E : v / m * m == v) by (field; intros H; rewrite H in Hm; discriminate).
  split.
  - intros H. apply not_true_is_false. intros Hle. apply Qle_bool_iff in Hle.
    generalize dependent (v / m). intros q H E. Lqa.nra.
  - intros H. apply Qnot_le_lt. intros Hle.
    assert (Hv : v <= a * m) by (generalize dependent (v / m); intros q E Hle; Lqa.nra).
    apply Qle_bool_iff in Hv. congruence.
Qed.

Lemma getBarColor_positive_max (v m : Q) (w : world) :
  0 < m -> fst (getBarColor (Fin v) (Fin m) w) = inl (tier v m).
Proof.
  intros Hm. unfold getBarColor, bind, divide, ret. cbn [fst].
  rewrite div_finite by (intros H; rewrite H in Hm; discriminate).
  rewrite !(ratio_above _ v Hm). reflexivity.
Qed.

Lemma getBarColor_of_maximum (m : Q) (w : world) :
  ~ m == 0 -> fst (getBarColor (Fin m) (Fin m) w) = inl "#48bb78".
Proof.
  intros Hm. unfold getBarColor, bind, divide, ret. cbn [fst].
  rewrite (div_finite _ Hm).
  replace (Fin (Qred (m / m)) >? Number.of_Q (7 # 10))%num with true; [reflexivity |].
  symmetry. unfold Number.of_Q. apply gtb_finite. rewrite !Qred_correct.
  assert (E : m / m == 1) by (field; exact Hm). rewrite E. reflexivity.
Qed.

Lemma getBarColor_zero_max (v : Q) (w : world) :
  v <= 0 -> fst (getBarColor (Fin v) $0 w) = inl "#f56565".
Proof.
  intros Hv. unfold getBarColor, bind, divide, ret. cbn [fst].
  unfold Number.div, Number.of_Z, Ext.quot, Ext.sgn.
  change (Qcompare (inject_Z 0) 0) with Eq. cbn iota.
  destruct (Qcompare_spec v 0) as [H | H | H]; cbn [Ext.scaled_infinity];
    try reflexivity.
  exfalso. apply (Qlt_not_le _ _ H), Hv.
Qed.



(** ** Grouping by project *)

Lemma existsb_eqb (n : string) (l : list string) :
  existsb (String.eqb n) l = true <-> In n l.
Proof.
  rewrite existsb_exists. split.
  - intros (x & Hx & E). apply String.eqb_eq in E. subst x. exact Hx.
  - intros H. exists n. split; [exact H | apply String.eqb_refl].
Qed.

Lemma insertions_from (seen names : list string) :
  let result :=
    fold_left
      (fun seen n => if existsb (String.eqb n) seen then seen else seen ++ [n])
      names seen in
  (NoDup seen -> NoDup result)
  /\ (forall n, In n result <-> In n seen \/ In n names).
Proof.
  revert seen. induction names as [| a names IH]; intros seen; cbn [fold_left].
  - split; [tauto |]. intros n. cbn [In]. tauto.
  - destruct (existsb (String.eqb a) seen) eqn:E.
    + apply existsb_eqb in E. destruct (IH seen) as [Hnd Hin]. split; [exact Hnd |].
      intros n. rewrite Hin. cbn [In]. split; [tauto |].
      intros [H | [H | H]]; [tauto | subst; tauto | tauto].
    + destruct (IH (seen ++ [a])) as [Hnd Hin]. split.
      * intros Hs. apply Hnd. apply NoDup_app; [exact Hs | repeat constructor; intros [] |].
        intros x Hx [Hxa | []]. subst x. apply existsb_eqb in Hx. congruence.
      * intros n. rewrite Hin, in_app_iff. cbn [In]. tauto.
Qed.

Lemma first_insertions_spec (names : list string) :
  NoDup (first_insertions names)
  /\ (forall n, In n (first_insertions names) <-> In n names).
Proof.
  destruct (insertions_from [] names) as [Hnd Hin]. split.
  - apply Hnd. constructor.
  - intros n. unfold first_insertions. rewrite Hin. cbn [In]. tauto.
Qed.

Lemma get_set_same (o : jsobject) (k : string) (v : number) :
  get (set o k v) k = Some v.
Proof.
  induction o as [| [k' v'] rest IH]; cbn [set get].
  - rewrite String.eqb_refl. reflexivity.
  - destruct (String.eqb k' k) eqn:E; cbn [get]; rewrite E; [reflexivity | exact IH].
Qed.

Lemma get_set_other (o : jsobject) (k n : string) (v : number) :
  String.eqb k n = false -> get (set o k v) n = get o n.
Proof.
  intros Hkn. induction o as [| [k' v'] rest IH]; cbn [set get].
  - rewrite Hkn. reflexivity.
  - destruct (String.eqb k' k) eqn:E; cbn [get].
    + apply String.eqb_eq in E. subst k'. rewrite Hkn. reflexivity.
    + rewrite IH. reflexivity.
Qed.

Lemma get_finite (o : jsobject) (n : string) (v : number) :
  all_finite o -> get o n = Some v -> exists q, v = Fin q.
Proof.
  induction 1 as [| [k v'] rest (q & Hq) _ IH]; cbn [get]; [discriminate |].
  destruct (String.eqb k n); [| exact IH].
  intros E. injection E as <-. exists q. exact Hq.
Qed.

Lemma get_or_zero_total (o : jsobject) (n : string) :
  all_finite o -> exists q, get_or_zero o n = Fin q /\ q == total_of o n.
Proof.
  intros Hfin. unfold get_or_zero, total_of.
  destruct (get o n) as [v |] eqn:E; [| exists 0; split; reflexivity].
  destruct (get_finite n Hfin E) as (q & ->). cbn [rational].
  unfold Number.or_else, Number.truthy, Ext.truthy, Ext.sgn.
  destruct (Qcompare_spec q 0) as [H | H | H].
  - exists 0. split; [reflexivity | symmetry; exact H].
  - exists q. split; reflexivity.
  - exists q. split; reflexivity.
Qed.

Lemma aggregate_totals_from (o : jsobject) (transactions : list transaction)
    (n : string) :
  all_finite o ->
  total_of
    (fold_left
       (fun projectXP t =>
          set projectXP (projectName t)
            (get_or_zero projectXP (projectName t) + Number.of_Q (amount t))%num)
       transactions o) n
  == total_of o n + project_amounts n transactions.
Proof.
  revert o. induction transactions as [| t rest IH]; intros o Hfin; cbn [fold_left].
  - unfold project_amounts. cbn. ring.
  - destruct (get_or_zero_total (projectName t) Hfin) as (q & Eq & Hq).
    rewrite Eq. unfold Number.of_Q. rewrite add_finite.
    rewrite IH by (apply set_finite, Hfin).
    unfold project_amounts. cbn [filter].
    destruct (String.eqb (projectName t) n) eqn:E.
    + apply String.eqb_eq in E. subst n.
      unfold total_of at 1. rewrite get_set_same. cbn [rational sum_amounts fold_right].
      rewrite !Qred_correct, Hq. unfold sum_amounts. ring.
    + unfold total_of at 1. rewrite get_set_other by exact E. reflexivity.
Qed.

Lemma get_present (o : jsobject) (n : string) :
  In n (map fst o) -> exists v, get o n = Some v.
Proof.
  induction o as [| [k v] rest IH]; cbn [map fst In get]; [intros [] |].
  intros [H | H].
  - subst k. rewrite String.eqb_refl. eauto.
  - destruct (String.eqb k n); [eauto | apply IH, H].
Qed.


Lemma Qsum_set (o : jsobject) (k : string) (q : Q) :
  all_finite o -> Qsum (set o k (Fin q)) == Qsum o - total_of o k + q.
Proof.
  unfold total_of.
  induction 1 as [| [k' v'] rest (q' & Hq') _ IH]; cbn [set get Qsum fold_right snd].
  - cbn [rational]. ring.
  - cbn [snd] in Hq'. subst v'. destruct (String.eqb k' k); cbn [Qsum fold_right snd rational].
    + fold (Qsum rest). ring.
    + fold (Qsum rest) (Qsum (set rest k (Fin q))). rewrite IH. ring.
Qed.

Lemma Qsum_aggregate_from (o : jsobject) (transactions : list transaction) :
  all_finite o ->
  Qsum
    (fold_left
       (fun projectXP t =>
          set projectXP (projectName t)
            (get_or_zero projectXP (projectName t) + Number.of_Q (amount t))%num)
       transactions o)
  == Qsum o + sum_amounts transactions.
Proof.
  revert o. induction transactions as [| t rest IH]; intros o Hfin; cbn [fold_left].
  - unfold sum_amounts. cbn. ring.
  - destruct (get_or_zero_total (projectName t) Hfin) as (q & Eq & Hq).
    rewrite Eq. unfold Number.of_Q. rewrite add_finite.
    rewrite IH by (apply set_finite, Hfin). rewrite (Qsum_set _ _ Hfin).
    rewrite !Qred_correct, Hq. unfold sum_amounts. cbn [fold_right]. ring.
Qed.

Lemma canonical_Qred (q : Q) : canonical (Qred q).
Proof. apply Qred_complete, Qred_correct. Qed.

Lemma canonical_eq (p q : Q) : canonical p -> canonical q -> p == q -> p = q.
Proof. unfold canonical. intros Hp Hq E. rewrite <- Hp, <- Hq. apply Qred_complete, E. Qed.

Lemma sum_totals_canonical (c : Q) (groups : list (string * number)) :
  all_finite groups -> canonical c ->
  exists q,
    fold_left (fun s p => (s + snd p)%num) groups (Fin c) = Fin q
    /\ canonical q /\ q == c + Qsum groups.
Proof.
  intros H. revert c.
  induction H as [| [n v] rest (qv & Hv) _ IH]; intros c Hc;
    cbn [fold_left Qsum fold_right].
  - exists c. repeat split; [exact Hc | ring].
  - cbn [snd] in Hv |- *. subst v. rewrite add_finite.
    destruct (IH (Qred (c + qv)) (canonical_Qred _)) as (q & E & Cq & Hq).
    exists q. repeat split; [exact E | exact Cq |].
    rewrite Hq, Qred_correct. cbn [rational]. unfold Qsum. ring.
Qed.

Lemma total_canonical (c : Q) (transactions : list transaction) :
  canonical c ->
  exists q,
    fold_left (fun sum t => (sum + Number.of_Q (amount t))%num) transactions (Fin c)
    = Fin q
    /\ canonical q /\ q == c + sum_amounts transactions.
Proof.
  revert c. induction transactions as [| t rest IH]; intros c Hc;
    cbn [fold_left sum_amounts fold_right].
  - exists c. repeat split; [exact Hc | ring].
  - unfold Number.of_Q at 2. rewrite add_finite.
    destruct (IH (Qred (c + Qred (amount t))) (canonical_Qred _)) as (q & E & Cq & Hq).
    exists q. repeat split; [exact E | exact Cq |].
    rewrite Hq, !Qred_correct. unfold sum_amounts. ring.
Qed.

Lemma sum_totals_is_total (groups : list (string * number))
    (transactions : list transaction) :
  all_finite groups -> Qsum groups == sum_amounts transactions ->
  sum_totals groups = calculateTotalXP transactions.
Proof.
  intros Hfin Hsum. unfold sum_totals, calculateTotalXP, Number.of_Z.
  assert (C0 : canonical (inject_Z 0)) by reflexivity.
  destruct (sum_totals_canonical Hfin C0) as (q1 & -> & C1 & H1).
  destruct (total_canonical transactions C0) as (q2 & -> & C2 & H2).
  f_equal. apply canonical_eq; [exact C1 | exact C2 |].
  rewrite H1, H2, Hsum. reflexivity.
Qed.

Lemma Qsum_aggregate (transactions : list transaction) :
  Qsum (aggregate transactions) == sum_amounts transactions.
Proof.
  unfold aggregate. rewrite Qsum_aggregate_from by constructor. cbn. ring.
Qed.



(** ** Counting projects *)

Lemma uniqueProjects_from (seen : list string) (transactions : list transaction) :
  fold_left
    (fun uniqueProjects t =>
       match truthy_name t with
       | Some n => Set_add uniqueProjects n
       | None => uniqueProjects
       end)
    transactions seen
  = fold_left
      (fun seen n => if existsb (String.eqb n) seen then seen else seen ++ [n])
      (flat_map (fun t => match truthy_name t with Some n => [n] | None => [] end)
         transactions)
      seen.
Proof.
  revert seen. induction transactions as [| t rest IH]; intros seen;
    cbn [fold_left flat_map]; [reflexivity |].
  destruct (truthy_name t) as [n |]; cbn [app fold_left]; apply IH.
Qed.

Lemma uniqueProjects_spec (transactions : list transaction) :
  NoDup (uniqueProjects transactions)
  /\ (forall n, In n (uniqueProjects transactions)
                <-> exists t, In t transactions /\ truthy_name t = Some n).
Proof.
  unfold uniqueProjects. rewrite uniqueProjects_from.
  destruct (first_insertions_spec
              (flat_map (fun t => match truthy_name t with Some n => [n] | None => [] end)
                 transactions)) as [Hnd Hin].
  split; [exact Hnd |]. intros n. unfold first_insertions in Hin. rewrite Hin, in_flat_map.
  split; intros (t & Ht & H); exists t; (split; [exact Ht |]).
  - destruct (truthy_name t) as [m |]; [destruct H as [-> | []]; reflexivity | destruct H].
  - rewrite H. left. reflexivity.
Qed.

Lemma projectName_truthy (t : transaction) :
  projectName t = match truthy_name t with Some n => n | None => "Unknown" end.
Proof.
  unfold projectName, truthy_name.
  destruct (object t) as [[[s |]] |]; try reflexivity.
  destruct (String.eqb s ""); reflexivity.
Qed.

Lemma names_when_named (transactions : list transaction) :
  Forall (fun t => truthy_name t <> None) transactions ->
  map projectName transactions
  = flat_map (fun t => match truthy_name t with Some n => [n] | None => [] end)
      transactions.
Proof.
  induction 1 as [| t rest Ht _ IH]; cbn [map flat_map]; [reflexivity |].
  rewrite projectName_truthy. destruct (truthy_name t) as [n |]; [| contradiction].
  cbn [app]. rewrite IH. reflexivity.
Qed.



(** ** The success rate *)

Lemma count_passes_le_graded (results : list result) :
  (count passes results <= count graded results)%nat.
Proof. rewrite <- count_partition. lia. Qed.

Lemma calculateSuccessRate_value (results : option (list result)) (w : world) :
  fst (calculateSuccessRate results w)
  = inl (Number.of_Z (percentage (count passes (array results))
                                 (count graded (array results)))).
Proof.
  unfold calculateSuccessRate.
  destruct results as [[| r rest] |]; try reflexivity.
  cbn [missing is_empty orb array]. rewrite successCounts_count.
  destruct (count graded (r :: rest)) as [| g] eqn:Eg; [reflexivity |].
  replace (Number.of_nat (S g) >? $0)%num with true
    by (symmetry; apply gtb_finite; reflexivity).
  unfold bind, divide, ret. cbn [fst]. unfold Number.of_nat, Number.of_Z.
  rewrite div_finite by discriminate. rewrite mul_finite.
  unfold Number.Math_round, Number.of_Z, percentage. do 3 f_equal.
  apply Qfloor_comp. rewrite !Qred_correct. reflexivity.
Qed.

Lemma percentage_range (passed graded : nat) :
  (passed <= graded)%nat ->
  (0 <= percentage passed graded <= 100)%Z
  /\ (passed = 0%nat -> percentage passed graded = 0%Z)
  /\ (passed = graded -> (0 < graded)%nat -> percentage passed graded = 100%Z).
Proof.
  intros Hle. unfold percentage. destruct graded as [| g]; [repeat split; lia |].
  set (P := inject_Z (Z.of_nat passed)). set (G := inject_Z (Z.of_nat (S g))).
  assert (HG : 0 < G) by (unfold G, Qlt; cbn; lia).
  assert (HP : 0 <= P) by (unfold P, Qle; cbn; lia).
  assert (HPG : P <= G) by (unfold P, G; rewrite <- Zle_Qle; lia).
  assert (H0 : 0 <= P / G)
    by (clearbody P G; apply Qle_shift_div_l; [exact HG | Lqa.lra]).
  assert (H1 : P / G <= 1)
    by (clearbody P G; apply Qle_shift_div_r; [exact HG | Lqa.lra]).
  assert (Hne : ~ G == 0) by (intros H; rewrite H in HG; discriminate).
  repeat split.
  - apply Z.le_trans with (Qfloor 0); [reflexivity |]. apply Qfloor_resp_le.
    generalize dependent (P / G). intros q H0 H1. clear -H0 H1. Lqa.lra.
  - apply Z.le_trans with (Qfloor (201 # 2)); [| reflexivity]. apply Qfloor_resp_le.
    generalize dependent (P / G). intros q H0 H1. clear -H0 H1. Lqa.lra.
  - intros ->.
    assert (E : P / G * 100 + (1 # 2) == 1 # 2)
      by (change P with 0; clearbody G; field; exact Hne).
    rewrite (Qfloor_comp _ _ E). reflexivity.
  - intros -> _.
    assert (E : P / G * 100 + (1 # 2) == 201 # 2)
      by (change P with G; clearbody G; field; exact Hne).
    rewrite (Qfloor_comp _ _ E). reflexivity.
Qed.



(** ** How the slices share the circle *)

Lemma auditSlices_finite (a b : Q) (w : world) :
  ~ a + b == 0 ->
  exists qa qb w',
    auditSlices (Fin a) (Fin b) (Fin a + Fin b)%num w
    = (inl [ {| label := "Audits Done"; value := Fin a; angle := Fin qa;
                color := "#48bb78"; startAngle := $0 |};
             {| label := "Audits Received"; value := Fin b; angle := Fin qb;
                color := "#667eea"; startAngle := Fin qa |} ], w')
    /\ qa == a / (a + b) * 360 /\ qb == b / (a + b) * 360.
Proof.
  intros Ht. rewrite add_finite.
  assert (Ht' : ~ Qred (a + b) == 0) by (rewrite Qred_correct; exact Ht).
  destruct (share_angle a Ht') as (qa & Ea & Ha).
  destruct (share_angle b Ht') as (qb & Eb & Hb).
  unfold auditSlices, bind, divide, ret. rewrite Ea, Eb.
  do 3 eexists. split; [reflexivity |].
  rewrite Ha, Hb, Qred_correct. split; reflexivity.
Qed.

Lemma passFailSlices_finite (a b : Q) (w : world) :
  ~ a + b == 0 ->
  exists qa qb w',
    passFailSlices (Fin a) (Fin b) (Fin a + Fin b)%num w
    = (inl [ {| label := "Pass"; value := Fin a; angle := Fin qa;
                color := "#48bb78"; startAngle := $0 |};
             {| label := "Fail"; value := Fin b; angle := Fin qb;
                color := "#f56565"; startAngle := Fin qa |} ], w')
    /\ qa == a / (a + b) * 360 /\ qb == b / (a + b) * 360.
Proof.
  intros Ht. rewrite add_finite.
  assert (Ht' : ~ Qred (a + b) == 0) by (rewrite Qred_correct; exact Ht).
  destruct (share_angle a Ht') as (qa & Ea & Ha).
  destruct (share_angle b Ht') as (qb & Eb & Hb).
  unfold passFailSlices, bind, divide, ret. rewrite Ea, Eb.
  do 3 eexists. split; [reflexivity |].
  rewrite Ha, Hb, Qred_correct. split; reflexivity.
Qed.

Lemma positive_is_drawn (q : Q) : 0 < q -> (Fin q >? $0)%num = true.
Proof. intros H. apply gtb_finite. exact H. Qed.

Lemma zero_is_skipped : (@Fin Q 0 >? $0)%num = false.
Proof. reflexivity. Qed.

(** Two slices of positive value whose angles sum to 360: the angles that
    the loop hands to the slice constructor. *)
Lemma two_slices_tile (s1 s2 : slice) (a b qa qb : Q) (w : world) :
  value s1 = Fin a -> value s2 = Fin b -> angle s1 = Fin qa -> angle s2 = Fin qb ->
  0 < a -> 0 < b -> qa + qb == 360 ->
  drawSlices recordAngles [s1; s2] (Number.of_Z (-90)) w
  = (inl [ Path [Num (Number.of_Z (-90)); Num (Fin (Qred (inject_Z (-90) + qa)))]
                (color s1);
           Path [Num (Fin (Qred (inject_Z (-90) + qa))); Num $270] (color s2) ],
     w).
Proof.
  intros V1 V2 A1 A2 Ha Hb Hsum. cbn [drawSlices].
  rewrite V1, V2, A1, A2, (positive_is_drawn Ha), (positive_is_drawn Hb).
  unfold bind, recordAngles, ret, Number.of_Z. rewrite !add_finite.
  assert (E : Qred (Qred (inject_Z (-90) + qa) + qb) = Qred (inject_Z 270)).
  { apply Qred_complete. rewrite Qred_correct.
    assert (H : inject_Z (-90) + qa + qb == inject_Z (-90) + (qa + qb)) by ring.
    rewrite H, Hsum. reflexivity. }
  rewrite E. reflexivity.
Qed.



Lemma full_turn_on_circle (c radius : Q) :
  on_circle_x c radius 270 = on_circle_x c radius (-90)
  /\ on_circle_y c radius 270 = on_circle_y c radius (-90).
Proof.
  unfold on_circle_x, on_circle_y.
  replace ((Q2R 270 - 90) * PI / 180)%R with PI by (unfold Q2R; cbn; lra).
  replace ((Q2R (-90) - 90) * PI / 180)%R with (- PI)%R by (unfold Q2R; cbn; lra).
  rewrite cos_neg, sin_neg, sin_PI. split; f_equal; lra.
Qed.

Lemma single_slice_full_turn (s1 s2 : slice) (a : Q) (w : world) :
  value s1 = Fin a -> value s2 = Fin 0 -> angle s1 = $360 -> 0 < a ->
  drawSlices recordAngles [s1; s2] (Number.of_Z (-90)) w
  = (inl [Path [Num (Number.of_Z (-90)); Num $270] (color s1)], w).
Proof.
  intros V1 V2 A1 Ha. cbn [drawSlices].
  rewrite V1, V2, A1, (positive_is_drawn Ha), zero_is_skipped. reflexivity.
Qed.



(** ** Initialising the four charts *)

Lemma initializeGraphs_returns (data : profileData) (w : world) :
  fst (initializeGraphs data w) = inl tt.
Proof.
  unfold initializeGraphs, try_catch.
  match goal with |- context [match ?m with _ => _ end] => destruct m as [[[] | e] w'] end;
    reflexivity.
Qed.

Lemma initializeGraphs_first_failure (data : profileData) (w w' : world) (e : exn) :
  createXPProgressGraph "xpProgressGraph" (xpTransactions data) w = (inr e, w') ->
  snd (initializeGraphs data w) = w'.
Proof.
  intros H. unfold initializeGraphs, try_catch. unfold bind at 1. rewrite H. reflexivity.
Qed.

Lemma single_transaction_leaves_document (containerId : string) (w : world)
    (t : transaction) :
  lookup containerId (elements w) <> None ->
  exists e w',
    createXPProgressGraph containerId (Some [t]) w = (inr e, w')
    /\ elements w' = elements w /\ head w' = head w.
Proof.
  intros Hc. unfold createXPProgressGraph. unfold bind at 1.
  rewrite (getElementById_present _ _ Hc). cbn [missing is_empty orb array].
  unfold drawXPProgress. unfold bind at 1. unfold get_clientWidth.
  destruct (lookup containerId (elements w)) as [el |]; [| contradiction].
  cbn. do 2 eexists. repeat split.
Qed.

(** X9: [initializeGraphs] never throws, because it catches what a renderer
    throws; but the four renderers run in sequence inside one [try], so the
    first failure leaves the later charts undrawn.  With exactly one XP
    transaction, whatever the audit data and the results, no container is
    changed at all; and when the first container is missing nothing happens
    to the document. *)
Theorem a_failing_chart_stops_the_others (data : profileData) (w : world) :
  fst (initializeGraphs data w) = inl tt
  /\ (forall t : transaction,
        lookup "xpProgressGraph" (elements w) <> None ->
        xpTransactions data = Some [t] ->
        elements (snd (initializeGraphs data w)) = elements w)
  /\ (lookup "xpProgressGraph" (elements w) = None ->
      snd (initializeGraphs data w) = w).
Proof.
  split; [apply initializeGraphs_returns |]. split.
  - intros t Hc Hx.
    destruct (@single_transaction_leaves_document "xpProgressGraph" w t Hc)
      as (e & w' & E & He & _).
    rewrite <- Hx in E. rewrite (@initializeGraphs_first_failure data w w' e E).
    exact He.
  - intros Hc. apply initializeGraphs_first_failure with (e := innerHTML_of_null).
    unfold createXPProgressGraph, bind.
    rewrite (getElementById_missing _ _ Hc). reflexivity.
Qed.

Lemma a_failing_chart_stops_the_others_witness :
  elements
    (snd (initializeGraphs
            {| xpTransactions := Some [at_time 1000 100];
               data_auditData := Some split_3_1;
               results := Some three_passes_one_fail |}
            profile_page))
  = elements profile_page.
Proof.
  apply (a_failing_chart_stops_the_others
           {| xpTransactions := Some [at_time 1000 100];
              data_auditData := Some split_3_1;
              results := Some three_passes_one_fail |}
           profile_page) with (t := at_time 1000 100).
  - discriminate.
  - reflexivity.
Defined.

Lemma lookup_update (id id' : string) (f : element -> element)
    (els : list (string * element)) :
  lookup id els <> None -> lookup id (update id' f els) <> None.
Proof.
  induction els as [| [k e] rest IH]; cbn [lookup update]; [tauto |].
  destruct (String.eqb k id') eqn:E'; cbn [lookup];
    destruct (String.eqb k id); try discriminate; tauto.
Qed.

Lemma showing_keeps_containers (message id id' : string) (w : world) :
  lookup id (elements w) <> None ->
  lookup id (elements (showing message id' w)) <> None.
Proof. intros H. unfold showing. cbn [elements]. apply lookup_update, H. Qed.

Lemma no_transactions_placeholder (containerId : string) (w : world)
    (transactions : option (list transaction)) :
  lookup containerId (elements w) <> None ->
  array transactions = [] ->
  createXPProgressGraph containerId transactions w
  = (inl tt, showing "No XP data available" containerId w)
  /\ createXPByProjectGraph containerId transactions w
     = (inl tt, showing "No project data available" containerId w).
Proof.
  intros Hc He. unfold createXPProgressGraph, createXPByProjectGraph, bind.
  rewrite (getElementById_present _ _ Hc).
  destruct transactions as [[| t rest] |]; try discriminate;
    split; apply set_placeholder.
Qed.

Lemma no_audit_placeholder (containerId : string) (w : world)
    (data : option auditData) :
  lookup containerId (elements w) <> None ->
  (forall d, data = Some d -> numeric (totalUp d) + numeric (totalDown d) == 0) ->
  createAuditRatioGraph containerId data w
  = (inl tt, showing "No audit data available" containerId w).
Proof.
  intros Hc Hd. destruct data as [d |].
  - apply audit_zero_total; [exact Hc | apply Hd; reflexivity].
  - unfold createAuditRatioGraph, bind. rewrite (getElementById_present _ _ Hc).
    apply set_placeholder.
Qed.

(** X10: for a profile without data (no XP transaction, no audit data or
    audit totals that sum to zero, no graded result) and a page that has the
    four containers, [initializeGraphs] shows the empty-state markup of each
    chart in its container, appends no style sheet and evaluates no
    division. *)
Theorem empty_profile_shows_four_placeholders (data : profileData) (w : world) :
  has_containers w ->
  array (xpTransactions data) = [] ->
  (forall d, data_auditData data = Some d ->
             numeric (totalUp d) + numeric (totalDown d) == 0) ->
  (fst (passFailCounts (array (results data)))
   + snd (passFailCounts (array (results data))) = 0)%nat ->
  initializeGraphs data w
  = (inl tt,
     showing "No results data available" "passFailGraph"
       (showing "No audit data available" "auditRatioGraph"
          (showing "No project data available" "xpByProjectGraph"
             (showing "No XP data available" "xpProgressGraph" w)))).
Proof.
  intros (H1 & H2 & H3 & H4) Hx Ha Hr.
  unfold initializeGraphs, try_catch, bind.
  rewrite (proj1 (@no_transactions_placeholder _ _ _ H1 Hx)).
  rewrite (proj2 (@no_transactions_placeholder _ _ _
                    (@showing_keeps_containers _ _ _ _ H2) Hx)).
  rewrite (@no_audit_placeholder _ _ _
             (@showing_keeps_containers _ _ _ _
                (@showing_keeps_containers _ _ _ _ H3)) Ha).
  rewrite (@passFail_zero_total _ _ _
             (@showing_keeps_containers _ _ _ _
                (@showing_keeps_containers _ _ _ _
                   (@showing_keeps_containers _ _ _ _ H4)))
             Hr).
  reflexivity.
Qed.

Lemma empty_profile_shows_four_placeholders_witness :
  initializeGraphs
    {| xpTransactions := Some []; data_auditData := None;
       results := Some [{| grade := None |}] |}
    profile_page
  = (inl tt,
     showing "No results data available" "passFailGraph"
       (showing "No audit data available" "auditRatioGraph"
          (showing "No project data available" "xpByProjectGraph"
             (showing "No XP data available" "xpProgressGraph" profile_page)))).
Proof.
  apply (@empty_profile_shows_four_placeholders
           {| xpTransactions := Some []; data_auditData := None;
              results := Some [{| grade := None |}] |}
           profile_page).
  - repeat split; discriminate.
  - reflexivity.
  - discriminate.
  - reflexivity.
Defined.

(** ** The shared tooltip *)

Section TooltipProperties.

Variable offsetHeight : string -> number.

Lemma handle_length (body : list tooltip) (e : pointerEvent) :
  (List.length (handle offsetHeight body e) <= Nat.max 1 (List.length body))%nat
  /\ (List.length body <= List.length (handle offsetHeight body e))%nat.
Proof.
  destruct e as [target content |]; destruct body as [| t rest]; cbn; lia.
Qed.

Lemma after_events_length (events : list pointerEvent) (body : list tooltip) :
  (List.length body <= List.length (after_events offsetHeight events body)
   <= Nat.max 1 (List.length body))%nat.
Proof.
  unfold after_events. revert body.
  induction events as [| e events IH]; intros body; cbn [fold_left]; [lia |].
  pose proof (handle_length body e). pose proof (IH (handle offsetHeight body e)). lia.
Qed.

Lemma showTooltip_overwrites (target : DOMRect) (content : string)
    (body : list tooltip) :
  (List.length body <= 1)%nat ->
  showTooltip offsetHeight target content body
  = [shown offsetHeight target content true].
Proof.
  destruct body as [| t [| t' rest]]; cbn; try reflexivity; lia.
Qed.

Lemma leaves_hide (t : tooltip) (events : list pointerEvent) :
  Forall (fun e => e = mouseleave) events ->
  after_events offsetHeight events [t]
  = [ {| innerHTML := innerHTML t;
         show := match events with [] => show t | _ => false end;
         left := left t; top := top t |} ].
Proof.
  unfold after_events. intros H. revert t.
  induction H as [| e events He _ IH]; intros t; cbn [fold_left].
  - destruct t; reflexivity.
  - subst e. cbn [handle hideTooltip]. rewrite IH. cbn.
    destruct events; reflexivity.
Qed.

Lemma leaves_create_nothing (events : list pointerEvent) :
  Forall (fun e => e = mouseleave) events ->
  after_events offsetHeight events [] = [].
Proof.
  unfold after_events. induction 1 as [| e events He _ IH]; cbn [fold_left];
    [reflexivity |].
  subst e. exact IH.
Qed.

(** X11: the tooltip is a singleton.  On a page without tooltip element,
    whatever the pointer events, at most one element is ever created;
    leaving shapes without having entered one creates none; and after a
    [mouseenter] followed only by [mouseleave] events the one tooltip holds
    the markup and the position of that last [mouseenter], and bears the
    class [show] exactly when no [mouseleave] followed.  Tooltip elements
    that the page already has are never removed and none is added to
    them. *)
Theorem the_tooltip_is_a_singleton (before after : list pointerEvent)
    (target : DOMRect) (content : string) :
  Forall (fun e => e = mouseleave) after ->
  after_events offsetHeight (before ++ mouseenter target content :: after) []
  = [shown offsetHeight target content match after with [] => true | _ => false end]
  /\ after_events offsetHeight after [] = []
  /\ (forall (events : list pointerEvent) (body : list tooltip),
        (List.length body <= List.length (after_events offsetHeight events body)
         <= Nat.max 1 (List.length body))%nat).
Proof.
  intros Hafter. split; [| split].
  - unfold after_events. rewrite fold_left_app. cbn [fold_left handle].
    rewrite showTooltip_overwrites.
    + fold (after_events offsetHeight after [shown offsetHeight target content true]).
      rewrite (leaves_hide _ Hafter). unfold shown. cbn.
      destruct after; reflexivity.
    + pose proof (after_events_length before []) as H. unfold after_events in H.
      cbn [List.length] in H. lia.
  - apply leaves_create_nothing, Hafter.
  - apply after_events_length.
Qed.

End TooltipProperties.

Lemma the_tooltip_is_a_singleton_witness :
  after_events (fun _ => $24)
    ([mouseleave; mouseenter {| rect_left := $10; rect_top := $50; rect_width := $30 |} "a";
      mouseleave]
     ++ mouseenter {| rect_left := $100; rect_top := $200; rect_width := $40 |} "b"
        :: [mouseleave])
    []
  = [ {| innerHTML := "b"; show := false; left := $120; top := $166 |} ].
Proof.
  apply (@the_tooltip_is_a_singleton (fun _ => $24)
           [mouseleave;
            mouseenter {| rect_left := $10; rect_top := $50; rect_width := $30 |} "a";
            mouseleave]
           [mouseleave]
           {| rect_left := $100; rect_top := $200; rect_width := $40 |} "b").
  repeat constructor.
Defined.

(** ** Renderers that cannot fail *)

Lemma quiet_ret (A : Type) (containerId : string) (a : A) : quiet containerId (ret a).
Proof.
  intros w _. exists a, []. unfold ret, logged. rewrite app_nil_r.
  destruct w; reflexivity.
Qed.

Lemma quiet_divide (containerId : string) (a b : number) :
  quiet containerId (divide a b).
Proof. intros w _. eexists _, _. reflexivity. Qed.

Lemma quiet_divide_real (containerId : string) (a b : real) :
  quiet containerId (divide_real a b).
Proof. intros w _. eexists _, _. reflexivity. Qed.

Lemma quiet_bind (A B : Type) (containerId : string) (m : JS A) (k : A -> JS B) :
  quiet containerId m -> (forall a, quiet containerId (k a)) ->
  quiet containerId (bind m k).
Proof.
  intros Hm Hk w Hc. destruct (Hm w Hc) as (a & ds & E).
  destruct (Hk a (logged ds w) Hc) as (b & ds' & E').
  exists b, (ds ++ ds'). unfold bind. rewrite E, E'. rewrite logged_logged. reflexivity.
Qed.

Lemma quiet_mapM (A B : Type) (containerId : string) (f : A -> JS B) (l : list A) :
  (forall a, In a l -> quiet containerId (f a)) -> quiet containerId (mapM f l).
Proof.
  induction l as [| a l IH]; intros H; cbn [mapM].
  - apply quiet_ret.
  - apply quiet_bind; [apply H; left; reflexivity |]. intros b.
    apply quiet_bind; [apply IH; intros a' Ha'; apply H; right; exact Ha' |].
    intros bs. apply quiet_ret.
Qed.

Lemma quiet_get_clientWidth (containerId : string) :
  quiet containerId (get_clientWidth (Some containerId)).
Proof.
  intros w Hc. unfold get_clientWidth.
  destruct (lookup containerId (elements w)) as [e |]; [| contradiction].
  exists (Number.of_Z (clientWidth e)), []. unfold logged. rewrite app_nil_r.
  destruct w; reflexivity.
Qed.

Lemma quiet_property (A B : Type) (containerId : string) (o : option A)
    (prop : string) (get : A -> B) :
  o <> None -> quiet containerId (property o prop get).
Proof.
  intros H. destruct o as [a |]; [| contradiction]. apply quiet_ret.
Qed.

Lemma update_update (id : string) (f g : element -> element)
    (els : list (string * element)) :
  update id g (update id f els) = update id (fun e => g (f e)) els.
Proof.
  induction els as [| [k e] rest IH]; cbn [update]; [reflexivity |].
  destruct (String.eqb k id) eqn:E; cbn [update]; rewrite E; [reflexivity |].
  rewrite IH. reflexivity.
Qed.

Lemma renders_bind (A : Type) (containerId : string) (styles : list string)
    (m : JS A) (k : A -> JS unit) :
  quiet containerId m -> (forall a, renders containerId styles (k a)) ->
  renders containerId styles (bind m k).
Proof.
  intros Hm Hk w Hc. destruct (Hm w Hc) as (a & ds & E).
  destruct (Hk a (logged ds w) Hc) as (width & height & nodes & ds' & E').
  exists width, height, nodes, (ds ++ ds'). unfold bind. rewrite E, E'.
  unfold drawn, logged. cbn [elements head divisions]. rewrite app_assoc. reflexivity.
Qed.

(** The last statements of a renderer: [container.innerHTML = ''] and
    [container.appendChild(svg)]. *)
Lemma renders_replace (containerId : string) (width height : number)
    (nodes : list node) :
  renders containerId []
    (set_innerHTML (Some containerId) "" ;;;
     appendChild (Some containerId) (Svg width height nodes)).
Proof.
  intros w _. exists width, height, nodes, [].
  unfold bind, set_innerHTML, appendChild, modify, drawn.
  cbn [elements head divisions String.eqb]. rewrite update_update, !app_nil_r.
  reflexivity.
Qed.

Lemma renders_style_then_replace (containerId css : string) (width height : number)
    (nodes : list node) :
  renders containerId [css]
    (appendStyle css ;;;
     set_innerHTML (Some containerId) "" ;;;
     appendChild (Some containerId) (Svg width height nodes)).
Proof.
  intros w _. exists width, height, nodes, [].
  unfold bind, appendStyle, set_innerHTML, appendChild, modify, drawn.
  cbn [elements head divisions String.eqb]. rewrite update_update, !app_nil_r.
  reflexivity.
Qed.

Ltac quiet_step :=
  first
    [ apply quiet_ret
    | apply quiet_divide
    | apply quiet_divide_real
    | apply quiet_get_clientWidth
    | match goal with
      | |- quiet _ (let '(_, _) := ?p in _) => destruct p
      end
    | apply quiet_mapM; intros ? _
    | apply quiet_bind; [| intros ?] ].

Ltac renders_step :=
  first
    [ apply renders_replace
    | apply renders_style_then_replace
    | apply renders_bind; [| intros ?] ].

Lemma quiet_polarToCartesian (containerId : string) (cx cy radius angle : number) :
  quiet containerId (polarToCartesian cx cy radius angle).
Proof. unfold polarToCartesian. repeat quiet_step. Qed.

Lemma quiet_createPieSlice (containerId : string)
    (cx cy radius startAngle endAngle : number) :
  quiet containerId (createPieSlice cx cy radius startAngle endAngle).
Proof.
  unfold createPieSlice.
  repeat first [apply quiet_polarToCartesian | quiet_step].
Qed.

Lemma quiet_createDonutSlice (containerId : string)
    (cx cy radius innerRadius startAngle endAngle : number) :
  quiet containerId (createDonutSlice cx cy radius innerRadius startAngle endAngle).
Proof.
  unfold createDonutSlice.
  repeat first [apply quiet_polarToCartesian | quiet_step].
Qed.

Lemma quiet_getBarColor (containerId : string) (value maxValue : number) :
  quiet containerId (getBarColor value maxValue).
Proof. unfold getBarColor. repeat quiet_step. Qed.

Lemma quiet_drawSlices (containerId : string)
    (createSlice : number -> number -> JS (list token)) (slices : list slice) :
  (forall a b, quiet containerId (createSlice a b)) ->
  forall currentAngle, quiet containerId (drawSlices createSlice slices currentAngle).
Proof.
  intros H. induction slices as [| s rest IH]; intros currentAngle; cbn [drawSlices].
  - apply quiet_ret.
  - destruct (value s >? $0)%num; [| apply IH].
    apply quiet_bind; [apply H | intros d].
    apply quiet_bind; [apply IH | intros paths]. apply quiet_ret.
Qed.

Lemma drawXPByProject_renders (containerId : string)
    (projects : list (string * number)) :
  renders containerId [] (drawXPByProject (Some containerId) projects).
Proof.
  unfold drawXPByProject. cbv zeta.
  repeat first [renders_step | apply quiet_getBarColor | quiet_step].
Qed.

Lemma drawAuditRatio_renders (containerId : string)
    (ratio up down total : number) :
  renders containerId [] (drawAuditRatio (Some containerId) ratio up down total).
Proof.
  unfold drawAuditRatio, auditSlices. cbv zeta.
  repeat first
    [ renders_step
    | apply quiet_drawSlices; intros ? ?; apply quiet_createDonutSlice
    | quiet_step ].
Qed.

Lemma drawPassFail_renders (containerId : string) (passed failed total : number) :
  renders containerId [] (drawPassFail (Some containerId) passed failed total).
Proof.
  unfold drawPassFail, passFailSlices. cbv zeta.
  repeat first
    [ renders_step
    | apply quiet_drawSlices; intros ? ?; apply quiet_createPieSlice
    | quiet_step ].
Qed.

Lemma quiet_bind_divide (A : Type) (containerId : string) (a b : number)
    (k : number -> JS A) :
  quiet containerId (k (a / b)%num) -> quiet containerId (bind (divide a b) k).
Proof.
  intros Hk w Hc. destruct (Hk (logged [NumberDivision a b] w) Hc) as (r & ds & E).
  exists r, ([NumberDivision a b] ++ ds). unfold bind, divide. rewrite E, logged_logged.
  reflexivity.
Qed.

Lemma Qred_inject_Z (z : Z) : Qred (inject_Z z) = inject_Z z.
Proof.
  unfold Qred, inject_Z.
  generalize (Z.ggcd_gcd z 1) (Z.ggcd_correct_divisors z 1).
  destruct (Z.ggcd z 1) as [g [aa bb]]. cbn [fst snd]. intros Hg [Ha Hb].
  rewrite Z.gcd_1_r in Hg. subst g.
  assert (Eb : bb = 1%Z) by lia. assert (Ea : aa = z) by lia.
  rewrite Eb, Ea. reflexivity.
Qed.

(** An index that is a whole number within the bounds reads an element. *)
Lemma at_index_integer (A : Type) (l : list A) (q : Q) (z : Z) :
  q == inject_Z z -> (0 <= z < Z.of_nat (List.length l))%Z ->
  at_index l (Fin q) <> None.
Proof.
  intros E Hz. unfold at_index.
  rewrite (Qred_complete _ _ E), Qred_inject_Z. cbn [inject_Z Qden Qnum].
  replace (0 <=? z)%Z with true by (symmetry; apply Z.leb_le; lia).
  cbn [Pos.eqb andb]. apply nth_error_Some. lia.
Qed.

Lemma at_index_first (A : Type) (l : list A) :
  (1 <= List.length l)%nat -> at_index l ($0) <> None.
Proof.
  intros H. apply at_index_integer with (z := 0%Z); [reflexivity | lia].
Qed.

Lemma at_index_last (A : Type) (l : list A) :
  (1 <= List.length l)%nat ->
  at_index l (Number.of_nat (List.length l) - $1)%num <> None.
Proof.
  intros H. unfold Number.of_nat, Number.of_Z. rewrite sub_finite.
  apply at_index_integer with (z := (Z.of_nat (List.length l) - 1)%Z); [| lia].
  rewrite !Qred_correct. unfold Z.sub. rewrite inject_Z_plus, inject_Z_opp.
  reflexivity.
Qed.

Lemma min_with_five (n : nat) :
  Number.min ($5) (Number.of_nat n) = Number.of_Z (Z.min 5 (Z.of_nat n)).
Proof.
  unfold Number.min, Ext.min2, Ext.compare, Number.of_nat, Number.of_Z.
  destruct (Qcompare_spec (inject_Z 5) (inject_Z (Z.of_nat n))) as [H | H | H].
  - rewrite inject_Z_injective in H. rewrite Z.min_l by lia. reflexivity.
  - rewrite <- Zlt_Qlt in H. rewrite Z.min_l by lia. reflexivity.
  - rewrite <- Zlt_Qlt in H. rewrite Z.min_r by lia. reflexivity.
Qed.

(** The index of every date label of the time series is within the data
    points as soon as there are two of them. *)
Lemma date_label_index (A : Type) (l : list A) (i : number) :
  (2 <= List.length l)%nat ->
  In i (loop_indices (Number.min ($5) (Number.of_nat (List.length l)))) ->
  at_index l
    (Number.Math_floor
       ((i * (Number.of_nat (List.length l) - $1)) /
        (Number.min ($5) (Number.of_nat (List.length l)) - $1))%num) <> None.
Proof.
  intros Hl Hi. rewrite min_with_five in *.
  assert (Hm : (2 <= Z.min 5 (Z.of_nat (List.length l))
                  <= Z.of_nat (List.length l))%Z) by lia.
  generalize dependent (Z.min 5 (Z.of_nat (List.length l))). intros m Hi Hm.
  unfold loop_indices, Number.of_Z in Hi. rewrite Qceiling_Z in Hi.
  apply in_map_iff in Hi. destruct Hi as (j & <- & Hj). apply in_seq in Hj.
  unfold Number.of_nat, Number.of_Z.
  set (n := Z.of_nat (List.length l)) in *.
  assert (Hd : 0 < inject_Z m + - inject_Z 1).
  { rewrite <- inject_Z_opp, <- inject_Z_plus. change 0 with (inject_Z 0).
    rewrite <- Zlt_Qlt. lia. }
  rewrite !sub_finite, mul_finite, div_finite.
  2: { rewrite !Qred_correct. intros E. rewrite E in Hd. discriminate Hd. }
  unfold Number.Math_floor, Number.of_Z.
  eapply at_index_integer; [reflexivity |]. split.
  - apply Z.le_trans with (Qfloor (inject_Z 0)); [reflexivity |].
    apply Qfloor_resp_le. rewrite !Qred_correct.
    apply Qle_shift_div_l; [exact Hd |].
    rewrite <- !inject_Z_opp, <- !inject_Z_plus, <- !inject_Z_mult, <- Zle_Qle. nia.
  - apply Z.le_lt_trans with (Qfloor (inject_Z (n - 1))); [| rewrite Qfloor_Z; lia].
    apply Qfloor_resp_le. rewrite !Qred_correct.
    apply Qle_shift_div_r; [exact Hd |].
    rewrite <- !inject_Z_opp, <- !inject_Z_plus, <- !inject_Z_mult, <- Zle_Qle. nia.
Qed.

Lemma dataPoints_from_length (ts : list transaction) (start : number) :
  List.length (dataPoints_from start ts) = List.length ts.
Proof.
  revert start. induction ts as [| t rest IH]; intros start; cbn [dataPoints_from List.length].
  - reflexivity.
  - rewrite IH. reflexivity.
Qed.

Ltac time_series_step :=
  first
    [ renders_step
    | apply quiet_property;
      first [ apply at_index_first; lia
            | apply at_index_last; lia
            | apply date_label_index; [lia | assumption] ]
    | apply quiet_bind_divide; cbv beta
    | apply quiet_mapM; intros ? ?
    | quiet_step ].

Lemma drawXPProgress_renders (containerId : string) (ts : list transaction) :
  (2 <= List.length ts)%nat ->
  renders containerId [drawLine_keyframes] (drawXPProgress (Some containerId) ts).
Proof.
  intros H. unfold drawXPProgress, dataPoints, drawLine_keyframes. cbv zeta.
  rewrite <- (dataPoints_from_length ts ($0)) in H.
  generalize dependent (dataPoints_from ($0) ts). intros dps H.
  repeat time_series_step.
Qed.

Lemma createXPProgressGraph_draws (containerId : string) (ts : list transaction)
    (w : world) :
  lookup containerId (elements w) <> None ->
  (2 <= List.length ts)%nat ->
  exists width height nodes ds,
    createXPProgressGraph containerId (Some ts) w
    = (inl tt,
       drawn containerId (Svg width height nodes) [drawLine_keyframes] ds w).
Proof.
  intros Hc Hl. unfold createXPProgressGraph. unfold bind at 1.
  rewrite (getElementById_present _ _ Hc).
  destruct ts as [| t1 [| t2 rest]]; cbn [List.length] in Hl; try lia.
  cbn [missing is_empty orb array].
  apply drawXPProgress_renders; [cbn [List.length]; lia | exact Hc].
Qed.

(** X12: with its container in the document, the time series has three
    outcomes, decided by the number of transactions alone: the placeholder
    for none, a [TypeError] for exactly one, and for two or more, whatever
    their amounts and dates, a normal return after the content of the
    container was replaced by one [svg] element and one more style sheet
    was appended to the document head.  Creating elements, setting their
    attributes and [getTotalLength] are taken not to throw. *)
Theorem time_series_outcomes (containerId : string) (ts : list transaction)
    (w : world) :
  lookup containerId (elements w) <> None ->
  match ts with
  | [] =>
      createXPProgressGraph containerId (Some ts) w
      = (inl tt, showing "No XP data available" containerId w)
  | [_] =>
      fst (createXPProgressGraph containerId (Some ts) w)
      = inr (TypeError "Cannot read properties of undefined (reading 'date')")
  | _ =>
      exists width height nodes ds,
        createXPProgressGraph containerId (Some ts) w
        = (inl tt,
           drawn containerId (Svg width height nodes) [drawLine_keyframes] ds w)
  end.
Proof.
  intros Hc. destruct ts as [| t1 [| t2 rest]].
  - apply no_transactions_placeholder; [exact Hc | reflexivity].
  - apply single_transaction_throws, Hc.
  - apply createXPProgressGraph_draws; [exact Hc | cbn [List.length]; lia].
Qed.

Lemma time_series_outcomes_witness :
  exists width height nodes ds,
    createXPProgressGraph "chart" (Some same_instant) sample_world
    = (inl tt,
       drawn "chart" (Svg width height nodes) [drawLine_keyframes] ds sample_world).
Proof.
  apply (@time_series_outcomes "chart" same_instant sample_world).
  discriminate.
Defined.

Lemma createXPByProjectGraph_outcome (containerId : string)
    (transactions : option (list transaction)) (w : world) :
  lookup containerId (elements w) <> None ->
  createXPByProjectGraph containerId transactions w
  = (inl tt, showing "No project data available" containerId w)
  \/ exists width height nodes ds,
       createXPByProjectGraph containerId transactions w
       = (inl tt, drawn containerId (Svg width height nodes) [] ds w).
Proof.
  intros Hc. unfold createXPByProjectGraph, bind.
  rewrite (getElementById_present _ _ Hc). cbn [missing orb].
  destruct (missing transactions || is_empty transactions);
    [left; apply set_placeholder |].
  cbv zeta.
  destruct (List.length (sortedProjects (array transactions)) =? 0)%nat;
    [left; apply set_placeholder |].
  right. apply drawXPByProject_renders, Hc.
Qed.

Lemma createAuditRatioGraph_outcome (containerId : string)
    (data : option auditData) (w : world) :
  lookup containerId (elements w) <> None ->
  createAuditRatioGraph containerId data w
  = (inl tt, showing "No audit data available" containerId w)
  \/ exists width height nodes ds,
       createAuditRatioGraph containerId data w
       = (inl tt, drawn containerId (Svg width height nodes) [] ds w).
Proof.
  intros Hc. unfold createAuditRatioGraph, bind.
  rewrite (getElementById_present _ _ Hc). cbn [missing orb].
  destruct (missing data); [left; apply set_placeholder |].
  cbv zeta.
  match goal with
  | |- context [if ?c then _ else _] => destruct c
  end; [left; apply set_placeholder |].
  right. apply drawAuditRatio_renders, Hc.
Qed.

Lemma createPassFailGraph_outcome (containerId : string)
    (results : option (list result)) (w : world) :
  lookup containerId (elements w) <> None ->
  createPassFailGraph containerId results w
  = (inl tt, showing "No results data available" containerId w)
  \/ exists width height nodes ds,
       createPassFailGraph containerId results w
       = (inl tt, drawn containerId (Svg width height nodes) [] ds w).
Proof.
  intros Hc. unfold createPassFailGraph, bind.
  rewrite (getElementById_present _ _ Hc). cbn [missing orb].
  destruct (missing results || is_empty results);
    [left; apply set_placeholder |].
  destruct (passFailCounts (array results)) as [passCount failCount]. cbv zeta.
  match goal with
  | |- context [if ?c then _ else _] => destruct c
  end; [left; apply set_placeholder |].
  right. apply drawPassFail_renders, Hc.
Qed.

(** X13: the bar chart and the two donut charts never throw once their
    container is in the document.  Whatever data they are given, each
    returns normally and leaves in its container either its empty-state
    markup or one [svg] element; none of them appends a style sheet.
    Creating elements and setting their attributes are taken not to
    throw. *)
Theorem bars_and_donuts_never_throw (containerId : string)
    (transactions : option (list transaction)) (data : option auditData)
    (results : option (list result)) (w : world) :
  lookup containerId (elements w) <> None ->
  forall chart : JS unit,
    In chart [ createXPByProjectGraph containerId transactions;
               createAuditRatioGraph containerId data;
               createPassFailGraph containerId results ] ->
    (exists message, chart w = (inl tt, showing message containerId w))
    \/ (exists width height nodes ds,
          chart w = (inl tt, drawn containerId (Svg width height nodes) [] ds w)).
Proof.
  intros Hc chart [<- | [<- | [<- | []]]].
  - destruct (@createXPByProjectGraph_outcome containerId transactions w Hc) as [E | E];
      [left; eexists; exact E | right; exact E].
  - destruct (@createAuditRatioGraph_outcome containerId data w Hc) as [E | E];
      [left; eexists; exact E | right; exact E].
  - destruct (@createPassFailGraph_outcome containerId results w Hc) as [E | E];
      [left; eexists; exact E | right; exact E].
Qed.

Lemma bars_and_donuts_never_throw_witness :
  (exists message,
     createAuditRatioGraph "chart" (Some split_3_1) sample_world
     = (inl tt, showing message "chart" sample_world))
  \/ (exists width height nodes ds,
        createAuditRatioGraph "chart" (Some split_3_1) sample_world
        = (inl tt, drawn "chart" (Svg width height nodes) [] ds sample_world)).
Proof.
  apply (@bars_and_donuts_never_throw "chart" None (Some split_3_1) None
           sample_world).
  - discriminate.
  - right. left. reflexivity.
Defined.

(** ** All four charts *)

Lemma lookup_update_same (id : string) (f : element -> element)
    (els : list (string * element)) (e : element) :
  lookup id els = Some e -> lookup id (update id f els) = Some (f e).
Proof.
  induction els as [| [k e'] rest IH]; cbn [lookup update]; [discriminate |].
  destruct (String.eqb k id) eqn:E; cbn [lookup]; rewrite E.
  - intros [= ->]. reflexivity.
  - exact IH.
Qed.

Lemma lookup_update_other (id id' : string) (f : element -> element)
    (els : list (string * element)) :
  id <> id' -> lookup id (update id' f els) = lookup id els.
Proof.
  intros Hne. induction els as [| [k e] rest IH]; cbn [lookup update]; [reflexivity |].
  destruct (String.eqb k id') eqn:E'; cbn [lookup].
  - destruct (String.eqb k id) eqn:E; [| reflexivity].
    apply String.eqb_eq in E, E'. congruence.
  - rewrite IH. reflexivity.
Qed.

Lemma showing_painted (message containerId : string) (w : world) :
  painted containerId w (showing message containerId w).
Proof. eexists. reflexivity. Qed.

Lemma drawn_painted (containerId : string) (c : child) (styles : list string)
    (ds : list division) (w : world) :
  painted containerId w (drawn containerId c styles ds w).
Proof. exists c. reflexivity. Qed.

Lemma painted_present (id id' : string) (w w' : world) :
  painted id' w w' ->
  lookup id (elements w) <> None -> lookup id (elements w') <> None.
Proof. intros [c ->] H. apply lookup_update, H. Qed.

Lemma painted_holds (id : string) (w w' : world) :
  painted id w w' ->
  lookup id (elements w) <> None -> holds_one_child id w'.
Proof.
  intros [c E] H. destruct (lookup id (elements w)) as [e |] eqn:L; [| contradiction].
  eexists _, c. rewrite E. split; [apply lookup_update_same, L | reflexivity].
Qed.

Lemma painted_elsewhere (id id' : string) (w w' : world) :
  id <> id' -> painted id' w w' -> holds_one_child id w -> holds_one_child id w'.
Proof.
  intros Hne [c E] (e & c' & L & Hc). exists e, c'. rewrite E.
  rewrite lookup_update_other by exact Hne. split; assumption.
Qed.

Lemma createXPProgressGraph_paints (containerId : string)
    (transactions : option (list transaction)) (w : world) :
  lookup containerId (elements w) <> None ->
  List.length (array transactions) <> 1%nat ->
  exists w',
    createXPProgressGraph containerId transactions w = (inl tt, w')
    /\ painted containerId w w'.
Proof.
  intros Hc Hl.
  destruct transactions as [[| t1 [| t2 rest]] |]; cbn [array List.length] in Hl.
  - eexists. split; [| apply showing_painted].
    apply no_transactions_placeholder; [exact Hc | reflexivity].
  - contradiction Hl. reflexivity.
  - destruct (@createXPProgressGraph_draws containerId (t1 :: t2 :: rest) w Hc)
      as (width & height & nodes & ds & E); [cbn [List.length]; lia |].
    eexists. split; [exact E | apply drawn_painted].
  - eexists. split; [| apply showing_painted].
    apply no_transactions_placeholder; [exact Hc | reflexivity].
Qed.

Lemma createXPByProjectGraph_paints (containerId : string)
    (transactions : option (list transaction)) (w : world) :
  lookup containerId (elements w) <> None ->
  exists w',
    createXPByProjectGraph containerId transactions w = (inl tt, w')
    /\ painted containerId w w'.
Proof.
  intros Hc.
  destruct (@createXPByProjectGraph_outcome containerId transactions w Hc)
    as [E | (width & height & nodes & ds & E)];
    eexists; (split; [exact E |]); [apply showing_painted | apply drawn_painted].
Qed.

Lemma createAuditRatioGraph_paints (containerId : string)
    (data : option auditData) (w : world) :
  lookup containerId (elements w) <> None ->
  exists w',
    createAuditRatioGraph containerId data w = (inl tt, w')
    /\ painted containerId w w'.
Proof.
  intros Hc.
  destruct (@createAuditRatioGraph_outcome containerId data w Hc)
    as [E | (width & height & nodes & ds & E)];
    eexists; (split; [exact E |]); [apply showing_painted | apply drawn_painted].
Qed.

Lemma createPassFailGraph_paints (containerId : string)
    (results : option (list result)) (w : world) :
  lookup containerId (elements w) <> None ->
  exists w',
    createPassFailGraph containerId results w = (inl tt, w')
    /\ painted containerId w w'.
Proof.
  intros Hc.
  destruct (@createPassFailGraph_outcome containerId results w Hc)
    as [E | (width & height & nodes & ds & E)];
    eexists; (split; [exact E |]); [apply showing_painted | apply drawn_painted].
Qed.

(** X14: on a page that has the four containers, [initializeGraphs] leaves
    every one of them with exactly one child (its chart or its empty-state
    markup) unless there is exactly one XP transaction: no other data,
    however degenerate, keeps a chart from being drawn. *)
Theorem every_chart_is_drawn (data : profileData) (w : world) :
  has_containers w ->
  List.length (array (xpTransactions data)) <> 1%nat ->
  Forall (fun id => holds_one_child id (snd (initializeGraphs data w)))
    chart_containers.
Proof.
  intros (H1 & H2 & H3 & H4) Hl.
  destruct (@createXPProgressGraph_paints _ (xpTransactions data) w H1 Hl)
    as (w1 & E1 & P1).
  destruct (@createXPByProjectGraph_paints _ (xpTransactions data) w1
              (@painted_present _ _ _ _ P1 H2)) as (w2 & E2 & P2).
  destruct (@createAuditRatioGraph_paints _ (data_auditData data) w2
              (@painted_present _ _ _ _ P2 (@painted_present _ _ _ _ P1 H3))) as (w3 & E3 & P3).
  destruct (@createPassFailGraph_paints _ (results data) w3
              (@painted_present _ _ _ _ P3 (@painted_present _ _ _ _ P2 (@painted_present _ _ _ _ P1 H4))))
    as (w4 & E4 & P4).
  assert (E : initializeGraphs data w = (inl tt, w4)).
  { unfold initializeGraphs, try_catch, bind.
    rewrite E1; cbv beta iota. rewrite E2; cbv beta iota.
    rewrite E3; cbv beta iota. rewrite E4. reflexivity. }
  rewrite E. cbn [snd]. unfold chart_containers.
  repeat apply Forall_cons; [| | | | apply Forall_nil].
  - apply (@painted_elsewhere _ "passFailGraph" w3 _); [discriminate | exact P4 |].
    apply (@painted_elsewhere _ "auditRatioGraph" w2 _); [discriminate | exact P3 |].
    apply (@painted_elsewhere _ "xpByProjectGraph" w1 _); [discriminate | exact P2 |].
    exact (@painted_holds _ _ _ P1 H1).
  - apply (@painted_elsewhere _ "passFailGraph" w3 _); [discriminate | exact P4 |].
    apply (@painted_elsewhere _ "auditRatioGraph" w2 _); [discriminate | exact P3 |].
    exact (@painted_holds _ _ _ P2 (@painted_present _ _ _ _ P1 H2)).
  - apply (@painted_elsewhere _ "passFailGraph" w3 _); [discriminate | exact P4 |].
    exact (@painted_holds _ _ _ P3 (@painted_present _ _ _ _ P2 (@painted_present _ _ _ _ P1 H3))).
  - exact (@painted_holds _ _ _ P4
             (@painted_present _ _ _ _ P3 (@painted_present _ _ _ _ P2 (@painted_present _ _ _ _ P1 H4)))).
Qed.

Lemma every_chart_is_drawn_witness :
  Forall
    (fun id =>
       holds_one_child id
         (snd (initializeGraphs
                 {| xpTransactions := Some zero_amounts;
                    data_auditData := Some split_3_1;
                    results := Some three_passes_one_fail |}
                 profile_page)))
    chart_containers.
Proof.
  apply (@every_chart_is_drawn
           {| xpTransactions := Some zero_amounts;
              data_auditData := Some split_3_1;
              results := Some three_passes_one_fail |}
           profile_page).
  - repeat split; discriminate.
  - discriminate.
Defined.

(** ** The scales of the time series *)

Lemma xScale_value (margin_left graphWidth minDate maxDate d : Q) (w : world) :
  minDate < maxDate ->
  exists x,
    fst (xScale (Fin margin_left) (Fin graphWidth) (Fin minDate) (Fin maxDate)
           (Fin d) w) = inl (Fin x)
    /\ x == margin_left + (d - minDate) / (maxDate - minDate) * graphWidth.
Proof.
  intros H. unfold xScale, bind, divide, ret. cbn [fst].
  rewrite !sub_finite, div_finite, mul_finite, add_finite.
  - eexists. split; [reflexivity |]. rewrite !Qred_correct. reflexivity.
  - rewrite !Qred_correct. intros E. Lqa.lra.
Qed.

Lemma yScale_value (height margin_bottom graphHeight maxXP v : Q) (w : world) :
  0 < maxXP ->
  exists y,
    fst (yScale (Fin height) (Fin margin_bottom) (Fin graphHeight) (Fin maxXP)
           (Fin v) w) = inl (Fin y)
    /\ y == height - margin_bottom - v / maxXP * graphHeight.
Proof.
  intros H. unfold yScale, bind, divide, ret. cbn [fst].
  rewrite div_finite, mul_finite, !sub_finite.
  - eexists. split; [reflexivity |]. rewrite !Qred_correct. reflexivity.
  - intros E. Lqa.lra.
Qed.

Lemma fraction_in_unit (a b : Q) : 0 < b -> 0 <= a <= b -> 0 <= a / b <= 1.
Proof.
  intros Hb [H0 H1]. split.
  - apply Qle_shift_div_l; [exact Hb | Lqa.lra].
  - apply Qle_shift_div_r; [exact Hb | Lqa.lra].
Qed.

(** X15: when the dates span a positive interval and the plot has a
    non-negative width, [xScale] sends the first date to the left edge of
    the plot, the last date to its right edge, and every date between them
    to an abscissa between the two; when the largest cumulative XP is
    positive, [yScale] sends 0 to the baseline, the maximum to the top of
    the plot and every value between them to an ordinate between the two. *)
Theorem scales_stay_inside_the_plot
    (margin_left graphWidth minDate maxDate d height margin_bottom graphHeight
       maxXP v : Q) (w : world) :
  minDate < maxDate -> minDate <= d <= maxDate -> 0 <= graphWidth ->
  0 < maxXP -> 0 <= v <= maxXP -> 0 <= graphHeight ->
  (exists x,
     fst (xScale (Fin margin_left) (Fin graphWidth) (Fin minDate) (Fin maxDate)
            (Fin d) w) = inl (Fin x)
     /\ margin_left <= x <= margin_left + graphWidth
     /\ (d == minDate -> x == margin_left)
     /\ (d == maxDate -> x == margin_left + graphWidth))
  /\ (exists y,
        fst (yScale (Fin height) (Fin margin_bottom) (Fin graphHeight) (Fin maxXP)
               (Fin v) w) = inl (Fin y)
        /\ height - margin_bottom - graphHeight <= y <= height - margin_bottom
        /\ (v == 0 -> y == height - margin_bottom)
        /\ (v == maxXP -> y == height - margin_bottom - graphHeight)).
Proof.
  intros Hd Hb Hw Hm Hv Hh. split.
  - destruct (@xScale_value margin_left graphWidth minDate maxDate d w Hd)
      as (x & E & Hx).
    exists x. split; [exact E |].
    assert (Ht : 0 <= (d - minDate) / (maxDate - minDate) <= 1)
      by (apply fraction_in_unit; Lqa.lra).
    assert (Hne : ~ maxDate - minDate == 0) by Lqa.lra.
    split; [| split].
    + generalize dependent ((d - minDate) / (maxDate - minDate)).
      intros t Hx Ht. clear - Hx Ht Hw. Lqa.nra.
    + intros Ed. rewrite Hx, Ed. field. exact Hne.
    + intros Ed. rewrite Hx, Ed. field. exact Hne.
  - destruct (@yScale_value height margin_bottom graphHeight maxXP v w Hm)
      as (y & E & Hy).
    exists y. split; [exact E |].
    assert (Ht : 0 <= v / maxXP <= 1) by (apply fraction_in_unit; Lqa.lra).
    assert (Hne : ~ maxXP == 0) by Lqa.lra.
    split; [| split].
    + generalize dependent (v / maxXP).
      intros t Hy Ht. clear - Hy Ht Hh. Lqa.nra.
    + intros Ev. rewrite Hy, Ev. field. exact Hne.
    + intros Ev. rewrite Hy, Ev. field. exact Hne.
Qed.

Lemma scales_stay_inside_the_plot_witness :
  (exists x,
     fst (xScale (Fin 80) (Fin 490) (Fin 1000) (Fin 2000) (Fin 1500) sample_world)
     = inl (Fin x)
     /\ 80 <= x <= 80 + 490
     /\ (1500 == 1000 -> x == 80)
     /\ (1500 == 2000 -> x == 80 + 490))
  /\ (exists y,
        fst (yScale (Fin 350) (Fin 60) (Fin 270) (Fin 40) (Fin 10) sample_world)
        = inl (Fin y)
        /\ 350 - 60 - 270 <= y <= 350 - 60
        /\ (10 == 0 -> y == 350 - 60)
        /\ (10 == 40 -> y == 350 - 60 - 270)).
Proof.
  apply (@scales_stay_inside_the_plot 80 490 1000 2000 1500 350 60 270 40 10
           sample_world).
  - reflexivity.
  - split; discriminate.
  - discriminate.
  - reflexivity.
  - split; discriminate.
  - discriminate.
Defined.
